(** * Quant_Portfolio: rule screening, universe ranking, weighting and backtest metrics

    A shallow embedding of [portfolio_creation.py], [portfolio_weighting.py],
    [backtester.py] and the script [run_portfolio_weighting.py].

    Conventions of the embedding.
    - A Python [int] is a [Z].  A Python [float] is a real number or [NaN]
      (type [float] below); arithmetic on finite values is exact real
      arithmetic, so rounding is not represented.  The infinities are not
      represented either: a division by zero, which numpy answers with [nan]
      or a signed infinity, is [NaN] here.
    - A [datetime.date] is its proleptic Gregorian ordinal ([date.toordinal]).
    - A Python [dict] is an association list in insertion order whose keys are
      pairwise different; a pandas [Series] is a list of (label, value) pairs,
      labels possibly repeated.
    - The relational store is a record of tables, each a list of rows; a query
      without [ORDER BY] answers in table order.
    - A call that raises answers [None]. *)

From Stdlib Require Import ZArith List String Ascii Bool Reals Lra Lia.
From Stdlib Require Import Permutation Sorted DecimalString DecimalZ.
Import ListNotations.

Set Implicit Arguments.

(** ** Python and pandas primitives *)

Module Py.

(** [str(n)] for an integer. *)
Definition str (z : Z) : string := NilZero.string_of_int (Z.to_int z).

(** [s.endswith(suffix)]. *)
Definition endswith (s suffix : string) : bool :=
  let n := String.length s in
  let m := String.length suffix in
  (m <=? n)%nat && String.eqb (substring (n - m) m s) suffix.

(** Values that serve as mapping keys and index labels: [int] and [str].
    An [int] never equals a [str]. *)
Inductive pyval : Type :=
| PyInt (z : Z)
| PyStr (s : string).

Definition pyval_eqb (a b : pyval) : bool :=
  match a, b with
  | PyInt x, PyInt y => Z.eqb x y
  | PyStr x, PyStr y => String.eqb x y
  | _, _ => false
  end.

(** *** Floats *)

Inductive float : Type :=
| Fin (r : R)
| NaN.

Definition Rltb (x y : R) : bool := if Rlt_dec x y then true else false.
Definition Rleb (x y : R) : bool := if Rle_dec x y then true else false.
Definition Reqb (x y : R) : bool := if Req_dec_T x y then true else false.

Definition fadd (a b : float) : float :=
  match a, b with Fin x, Fin y => Fin (x + y) | _, _ => NaN end.

Definition fsub (a b : float) : float :=
  match a, b with Fin x, Fin y => Fin (x - y) | _, _ => NaN end.

Definition fmul (a b : float) : float :=
  match a, b with Fin x, Fin y => Fin (x * y) | _, _ => NaN end.

Definition fdiv (a b : float) : float :=
  match a, b with
  | Fin x, Fin y => if Reqb y 0 then NaN else Fin (x / y)
  | _, _ => NaN
  end.

(** Comparisons with [nan] are false. *)
Definition flt (a b : float) : bool :=
  match a, b with Fin x, Fin y => Rltb x y | _, _ => false end.

Definition fgt (a b : float) : bool := flt b a.

Definition isna (a : float) : bool :=
  match a with NaN => true | Fin _ => false end.

(** Python's [sum] and numpy's [ndarray.sum]: [nan] propagates. *)
Definition fsum (l : list float) : float := fold_right fadd (Fin 0) l.

(** *** pandas reductions ([skipna=True]) *)

Fixpoint dropna (l : list float) : list R :=
  match l with
  | [] => []
  | Fin r :: l' => r :: dropna l'
  | NaN :: l' => dropna l'
  end.

Definition Rsum (l : list R) : R := fold_right Rplus 0%R l.

(** [Series.sum()]. *)
Definition nansum (l : list float) : R := Rsum (dropna l).

(** [Series.mean()]. *)
Definition mean (l : list float) : float :=
  match dropna l with
  | [] => NaN
  | xs => Fin (Rsum xs / INR (List.length xs))
  end.

(** [Series.std()], sample standard deviation ([ddof=1]): [nan] with fewer
    than two observations. *)
Definition std (l : list float) : float :=
  let xs := dropna l in
  let n := List.length xs in
  if (n <? 2)%nat then NaN
  else
    let m := (Rsum xs / INR n)%R in
    Fin (sqrt (Rsum (map (fun x => (x - m) * (x - m))%R xs) / INR (n - 1))).

(** Stable insertion sort: [le x y] says that [x] may stand before [y]. *)
Section Sorting.
Variable A : Type.
Variable le : A -> A -> bool.

Fixpoint insert_by (x : A) (l : list A) : list A :=
  match l with
  | [] => [x]
  | y :: l' => if le x y then x :: y :: l' else y :: insert_by x l'
  end.

Definition sort_by (l : list A) : list A := fold_right insert_by [] l.
End Sorting.

(** [Series.median()]. *)
Definition median (l : list float) : float :=
  let xs := sort_by Rleb (dropna l) in
  let n := List.length xs in
  match n with
  | O => NaN
  | _ =>
    if Nat.even n
    then Fin ((nth (n / 2 - 1) xs 0%R + nth (n / 2) xs 0%R) / 2)%R
    else Fin (nth (n / 2) xs 0%R)
  end.

(** [Series.pct_change()]: the first entry is [nan]. *)
Fixpoint pct_from (prev : float) (l : list float) : list float :=
  match l with
  | [] => []
  | x :: l' => fsub (fdiv x prev) (Fin 1) :: pct_from x l'
  end.

Definition pct_change (l : list float) : list float :=
  match l with
  | [] => []
  | x :: l' => NaN :: pct_from x l'
  end.

(** [Series.tail(n)]: the last [n] entries; for negative [n] all but the
    first [|n|]. *)
Definition tail (A : Type) (n : Z) (l : list A) : list A :=
  if (n <? 0)%Z then skipn (Z.to_nat (- n)) l
  else skipn (List.length l - Z.to_nat n) l.

(** *** Dictionaries *)

Section Dict.
Variables K V : Type.
Variable eqb : K -> K -> bool.

Definition dict := list (K * V).

(** [d[k] = v]: an existing key keeps its place. *)
Fixpoint dict_set (d : dict) (k : K) (v : V) : dict :=
  match d with
  | [] => [(k, v)]
  | (k', v') :: d' =>
    if eqb k' k then (k', v) :: d' else (k', v') :: dict_set d' k v
  end.

(** [d.get(k)]. *)
Fixpoint dict_get (d : dict) (k : K) : option V :=
  match d with
  | [] => None
  | (k', v') :: d' => if eqb k' k then Some v' else dict_get d' k
  end.

(** [dict(items)] and [{k: v for k, v in items}]: later items overwrite. *)
Definition dict_of_items (items : list (K * V)) : dict :=
  fold_left (fun d kv => dict_set d (fst kv) (snd kv)) items [].
End Dict.

(** [{str(k): v for k, v in series.to_dict().items()}]. *)
Definition stringify (V : Type) (series : list (Z * V)) : dict string V :=
  dict_of_items String.eqb
    (map (fun kv => (str (fst kv), snd kv)) (dict_of_items Z.eqb series)).

(** *** Dates *)

(** [date(year, 1, 1).toordinal()]. *)
Definition jan1 (year : Z) : Z :=
  let y := (year - 1)%Z in
  (365 * y + y / 4 - y / 100 + y / 400 + 1)%Z.

(** [date(year, 12, 31).toordinal()]. *)
Definition dec31 (year : Z) : Z := (jan1 (year + 1) - 1)%Z.

End Py.

Import Py.

(** ** The store ([db_schema.py]) *)

(** Only the columns that the three modules read or write are kept;
    [Company] is its primary key. *)

Record Metric : Type := {
  metric_id : Z;
  metric_name : string
}.

Record Financial : Type := {
  fin_company_id : Z;
  fin_metric_id : Z;
  period_label : string;
  fin_value : R
}.

Record Price : Type := {
  price_company_id : Z;
  price_date : Z;
  close : R
}.

(** One entry of [rule_json["filters"]]. *)
Record FilterClause : Type := {
  f_name : string;
  f_sign : string;
  f_threshold : R
}.

(** [rule_filters] is [rule.rule_json.get("filters", [])]. *)
Record Rule : Type := {
  rule_id : Z;
  rule_filters : list FilterClause
}.

(** The JSON column [YearlyPortfolio.weights]: the placeholder written by the
    generator, company id to weight, or the per-scheme mappings written by the
    weighting pass. *)
Inductive weights_json : Type :=
| Placeholder (w : dict string float)
| Schemes (w : dict string (dict string float)).

Record YearlyPortfolio : Type := {
  yp_rule_id : Z;
  yp_year : Z;
  yp_weights : weights_json
}.

Record Database : Type := {
  companies : list Z;
  metrics : list Metric;
  financials : list Financial;
  prices : list Price;
  yearly_portfolios : list YearlyPortfolio
}.

(** [SELECT DISTINCT]: first occurrences, in order. *)
Fixpoint distinct (l : list Z) : list Z :=
  match l with
  | [] => []
  | x :: l' => x :: filter (fun y => negb (Z.eqb y x)) (distinct l')
  end.

(** ** [portfolio_creation.py] *)

Module PortfolioGenerator.

(** The lagged-year test on a period label, [period_label.endswith(str(year - 1))]. *)
Definition lagged (year : Z) (f : Financial) : bool :=
  endswith (period_label f) (str (year - 1)).

Definition get_market_cap_for_sorting (db : Database) (company_ids : list Z)
    (year : Z) : dict Z R :=
  match company_ids with
  | [] => []
  | _ =>
    match find (fun m => String.eqb (metric_name m) "market_cap") (metrics db) with
    | None => dict_of_items Z.eqb (map (fun cid => (cid, 0%R)) company_ids)
    | Some market_cap_metric =>
      let financials' :=
        filter (fun f =>
                  existsb (Z.eqb (fin_company_id f)) company_ids
                  && Z.eqb (fin_metric_id f) (metric_id market_cap_metric)
                  && lagged year f)
               (financials db) in
      dict_of_items Z.eqb
        (map (fun f => (fin_company_id f, fin_value f)) financials')
    end
  end.

(** The [ON] clause of the join added for clause [f], on a row of the
    financial alias and a row of the metric alias. *)
Definition join_condition (year : Z) (f : FilterClause) (cid : Z)
    (fin : Financial) (m : Metric) : bool :=
  Z.eqb cid (fin_company_id fin)
  && Z.eqb (fin_metric_id fin) (metric_id m)
  && String.eqb (metric_name m) (f_name f)
  && lagged year fin.

(** The comparison on the value; [None] for a sign that is none of the four. *)
Definition filter_condition (f : FilterClause) : option (R -> bool) :=
  if String.eqb (f_sign f) ">" then Some (fun v => Rltb (f_threshold f) v)
  else if String.eqb (f_sign f) "<" then Some (fun v => Rltb v (f_threshold f))
  else if String.eqb (f_sign f) ">=" then Some (fun v => Rleb (f_threshold f) v)
  else if String.eqb (f_sign f) "<=" then Some (fun v => Rleb v (f_threshold f))
  else None.

(** The rows of the two aliases that the join of clause [f] pairs with
    company [cid] and that pass the comparison. *)
Definition joined_rows (db : Database) (year : Z) (f : FilterClause)
    (cond : R -> bool) (cid : Z) : list (Financial * Metric) :=
  filter (fun fm => join_condition year f cid (fst fm) (snd fm)
                    && cond (fin_value (fst fm)))
         (list_prod (financials db) (metrics db)).

(** One turn of the loop over the filters.  The query is the list of the
    [Company.id] of its result rows, with repetition. *)
Definition apply_filter (db : Database) (year : Z) (q : list Z)
    (f : FilterClause) : list Z :=
  match filter_condition f with
  | None => q
  | Some cond =>
    flat_map (fun cid => map (fun _ => cid) (joined_rows db year f cond cid)) q
  end.

Definition eligible_company_ids (db : Database) (filters : list FilterClause)
    (year : Z) : list Z :=
  distinct (fold_left (apply_filter db year) filters (companies db)).

(** [market_caps.get(cid, 0)]. *)
Definition sort_key (market_caps : dict Z R) (cid : Z) : R :=
  match dict_get Z.eqb market_caps cid with
  | Some v => v
  | None => 0%R
  end.

(** [ids.sort(key=..., reverse=True)]: stable, larger keys first. *)
Definition sort_desc (key : Z -> R) (ids : list Z) : list Z :=
  sort_by (fun x y => Rleb (key y) (key x)) ids.

(** [eligible_company_ids] after the sort, cut to twenty. *)
Definition top_company_ids (db : Database) (filters : list FilterClause)
    (year : Z) : list Z :=
  let eligible := eligible_company_ids db filters year in
  let market_caps := get_market_cap_for_sorting db eligible year in
  firstn 20 (sort_desc (sort_key market_caps) eligible).

Definition portfolio_weights_placeholder (top : list Z) : dict string float :=
  dict_of_items String.eqb (map (fun cid => (str cid, Fin 0)) top).

Definition same_key (rule : Rule) (year : Z) (yp : YearlyPortfolio) : bool :=
  Z.eqb (yp_rule_id yp) (rule_id rule) && Z.eqb (yp_year yp) year.

Definition set_yearly_portfolios (db : Database) (yps : list YearlyPortfolio)
    : Database :=
  {| companies := companies db; metrics := metrics db;
     financials := financials db; prices := prices db;
     yearly_portfolios := yps |}.

(** The write at the end of [generate_portfolio]: [one_or_none()] raises when
    several rows have the key. *)
Definition save_placeholder (db : Database) (rule : Rule) (year : Z)
    (w : dict string float) : option Database :=
  match filter (same_key rule year) (yearly_portfolios db) with
  | [] =>
    Some (set_yearly_portfolios db
            (yearly_portfolios db ++
             [{| yp_rule_id := rule_id rule; yp_year := year;
                 yp_weights := Placeholder w |}]))
  | [_] =>
    Some (set_yearly_portfolios db
            (map (fun yp =>
                    if same_key rule year yp
                    then {| yp_rule_id := yp_rule_id yp; yp_year := yp_year yp;
                            yp_weights := Placeholder w |}
                    else yp)
                 (yearly_portfolios db)))
  | _ => None
  end.

(** The store after the call and the list returned. *)
Definition generate_portfolio (db : Database) (rule : Rule) (year : Z)
    : option (Database * list Z) :=
  match rule_filters rule with
  | [] => Some (db, [])
  | filters =>
    match top_company_ids db filters year with
    | [] => Some (db, [])
    | top =>
      match save_placeholder db rule year (portfolio_weights_placeholder top) with
      | Some db' => Some (db', top)
      | None => None
      end
    end
  end.

(** [range(start_year, end_year + 1)]. *)
Definition years (start_year end_year : Z) : list Z :=
  map (fun i => (start_year + Z.of_nat i)%Z)
      (seq 0 (Z.to_nat (end_year + 1 - start_year))).

(** The (rule, year) units of [run_backtest], in the order of its two loops. *)
Definition grid (rules : list Rule) (start_year end_year : Z) : list (Rule * Z) :=
  flat_map (fun rule => map (fun year => (rule, year)) (years start_year end_year))
           rules.

(** One unit of the run on the store reached so far; the flag says that no
    call has raised.  Each call commits in a session of its own, so a call
    that raises leaves the store as the units before it made it and ends the
    run. *)
Definition run_unit (state : Database * bool) (unit : Rule * Z) : Database * bool :=
  match state with
  | (db, false) => (db, false)
  | (db, true) =>
    match generate_portfolio db (fst unit) (snd unit) with
    | Some (db', _) => (db', true)
    | None => (db, false)
    end
  end.

(** [run_backtest], [rules] being the rule table as read at the start: the
    store at the end and whether the run completed. *)
Definition run_backtest (db : Database) (rules : list Rule)
    (start_year end_year : Z) : Database * bool :=
  fold_left run_unit (grid rules start_year end_year) (db, true).

End PortfolioGenerator.

(** ** [portfolio_weighting.py] *)

Module PortfolioWeightingEngine.

Definition has_dup (l : list Z) : bool :=
  negb (Nat.eqb (List.length (distinct l)) (List.length l)).

(** The frame read by [get_market_caps] when the metric exists. *)
Definition market_cap_rows (db : Database) (m : Metric) (company_ids : list Z)
    (year : Z) : list Financial :=
  filter (fun f =>
            existsb (Z.eqb (fin_company_id f)) company_ids
            && PortfolioGenerator.lagged year f
            && Z.eqb (fin_metric_id f) (metric_id m))
         (financials db).

(** [None]: [reindex] raises on a frame indexed by a repeated company id. *)
Definition get_market_caps (db : Database) (company_ids : list Z) (year : Z)
    : option (list (Z * float)) :=
  match find (fun m => String.eqb (metric_name m) "market_cap") (metrics db) with
  | None => Some (map (fun cid => (cid, Fin 1)) company_ids)
  | Some market_cap_metric =>
    let df := market_cap_rows db market_cap_metric company_ids year in
    match df with
    | [] => Some (map (fun cid => (cid, Fin 1)) company_ids)
    | _ =>
      if has_dup (map fin_company_id df) then None
      else
        Some (map (fun cid =>
                     (cid,
                      match find (fun f => Z.eqb (fin_company_id f) cid) df with
                      | Some f => Fin (fin_value f)
                      | None => Fin 1
                      end))
                  company_ids)
    end
  end.

(** Price rows of the given companies dated within [[start_date, end_date]]. *)
Definition price_rows (db : Database) (company_ids : list Z)
    (start_date end_date : Z) : list Price :=
  filter (fun p =>
            existsb (Z.eqb (price_company_id p)) company_ids
            && Z.leb start_date (price_date p)
            && Z.leb (price_date p) end_date)
         (prices db).

(** [df[df['company_id'] == cid].sort_values('date')['close']]. *)
Definition closes_of (df : list Price) (cid : Z) : list R :=
  map close
    (sort_by (fun p q => Z.leb (price_date p) (price_date q))
       (filter (fun p => Z.eqb (price_company_id p) cid) df)).

(** The body of the loop of [get_volatility] for one company. *)
Definition volatility_of (df : list Price) (lookback : Z) (cid : Z) : float :=
  let prices' := tail lookback (closes_of df cid) in
  if (List.length prices' <? 2)%nat then Fin 0.2
  else
    let ret := dropna (pct_change (map Fin prices')) in
    fmul (std (map Fin ret)) (Fin (sqrt 252)).

(** The frame read by [get_volatility]: the window ends on the eve of the
    year and spans [int(lookback * 1.5)] days. *)
Definition vol_frame (db : Database) (company_ids : list Z) (year : Z)
    (lookback : Z) : list Price :=
  let end_date := (jan1 year - 1)%Z in
  let start_date := (end_date - Z.quot (3 * lookback) 2)%Z in
  price_rows db company_ids start_date end_date.

Definition get_volatility (db : Database) (company_ids : list Z) (year : Z)
    (lookback : Z) : list (Z * float) :=
  let df := vol_frame db company_ids year lookback in
  match df with
  | [] => map (fun cid => (cid, Fin 1)) company_ids
  | _ =>
    dict_of_items Z.eqb
      (map (fun cid => (cid, volatility_of df lookback cid)) company_ids)
  end.

(** The body of the momentum loop for one company. *)
Definition momentum_of (df : list Price) (cid : Z) : float :=
  let prices' := closes_of df cid in
  if (List.length prices' <? 2)%nat then Fin 0
  else fsub (fdiv (Fin (last prices' 0%R)) (Fin (hd 0%R prices'))) (Fin 1).

(** [mom_series[mom_series < 0] = 0] on one entry. *)
Definition clamp (v : float) : float :=
  if flt v (Fin 0) then Fin 0 else v.

(** The frame read by the momentum scheme: the window ends on the eve of the
    year and spans [momentum_period] days. *)
Definition mom_frame (db : Database) (company_ids : list Z) (year : Z)
    (momentum_period : Z) : list Price :=
  let end_date := (jan1 year - 1)%Z in
  let start_date := (end_date - momentum_period)%Z in
  price_rows db company_ids start_date end_date.

(** [mom_series] after the clamp. *)
Definition mom_series (db : Database) (company_ids : list Z) (year : Z)
    (momentum_period : Z) : list (Z * float) :=
  let df := mom_frame db company_ids year momentum_period in
  map (fun kv => (fst kv, clamp (snd kv)))
    (dict_of_items Z.eqb
       (map (fun cid => (cid, momentum_of df cid)) company_ids)).

(** [series / series.sum()]. *)
Definition normalize (series : list (Z * float)) : list (Z * float) :=
  let total := nansum (map snd series) in
  map (fun kv => (fst kv, fdiv (snd kv) (Fin total))) series.

Definition compute_weights (db : Database) (company_ids : list Z) (year : Z)
    (scheme : string) (lookback_vol momentum_period : Z)
    : option (dict string float) :=
  match company_ids with
  | [] => Some []
  | _ =>
    let str_company_ids := map str company_ids in
    if String.eqb scheme "equal" then
      let n := List.length str_company_ids in
      Some (dict_of_items String.eqb
              (map (fun cid => (cid, Fin (1 / INR n))) str_company_ids))
    else if String.eqb scheme "market_cap" then
      match get_market_caps db company_ids year with
      | None => None
      | Some mcaps => Some (stringify (normalize mcaps))
      end
    else if String.eqb scheme "inverse_vol" then
      let vols := get_volatility db company_ids year lookback_vol in
      let inv_vols :=
        map (fun kv => (fst kv, fdiv (Fin 1) (fadd (snd kv) (Fin 1e-8)))) vols in
      Some (stringify (normalize inv_vols))
    else if String.eqb scheme "momentum" then
      let mom := mom_series db company_ids year momentum_period in
      let weights :=
        if Rltb 0 (nansum (map snd mom)) then normalize mom
        else map (fun cid => (cid, Fin (1 / INR (List.length company_ids))))
                 company_ids in
      Some (stringify weights)
    else None
  end.

(** The default of the parameter [schemes]. *)
Definition default_schemes : list string :=
  ["equal"; "market_cap"; "inverse_vol"; "momentum"]%string.

(** One turn of the loop of [compute_all_weights]; [None] once a call of
    [compute_weights] has raised. *)
Definition add_scheme (db : Database) (company_ids : list Z) (year : Z)
    (lookback_vol momentum_period : Z)
    (all_weights : option (dict string (dict string float))) (scheme : string)
    : option (dict string (dict string float)) :=
  match all_weights with
  | None => None
  | Some d =>
    match compute_weights db company_ids year scheme lookback_vol momentum_period with
    | Some w => Some (dict_set String.eqb d scheme w)
    | None => None
    end
  end.

Definition compute_all_weights (db : Database) (company_ids : list Z) (year : Z)
    (schemes : list string) (lookback_vol momentum_period : Z)
    : option (dict string (dict string float)) :=
  fold_left (add_scheme db company_ids year lookback_vol momentum_period)
            schemes (Some []).

End PortfolioWeightingEngine.

(** ** [backtester.py] *)

Module PortfolioBacktester.

(** [Price.company_id.in_(keys)]: the store compares an integer column with
    the key as the server reads it, an [int] as it is and a [str] as the
    integer it spells. *)
Definition sql_in (company_id : Z) (keys : list pyval) : bool :=
  existsb (fun k => match k with
                    | PyInt z => Z.eqb z company_id
                    | PyStr s => String.eqb s (str company_id)
                    end) keys.

(** A frame: column labels and date-indexed rows, one cell per column. *)
Record DataFrame : Type := {
  columns : list Z;
  rows : list (Z * list float)
}.

Definition sort_distinct (l : list Z) : list Z := sort_by Z.leb (distinct l).

(** [df.pivot(index="date", columns="company_id", values="close").sort_index()]. *)
Definition pivot (df : list Price) : DataFrame :=
  let cols := sort_distinct (map price_company_id df) in
  {| columns := cols;
     rows :=
       map (fun d =>
              (d, map (fun c =>
                         match find (fun p => Z.eqb (price_date p) d
                                              && Z.eqb (price_company_id p) c) df with
                         | Some p => Fin (close p)
                         | None => NaN
                         end) cols))
           (sort_distinct (map price_date df)) |}.

Definition fill (prev cur : float) : float :=
  if isna cur then prev else cur.

Fixpoint ffill_from (prev : list float) (rs : list (Z * list float))
    : list (Z * list float) :=
  match rs with
  | [] => []
  | (d, r) :: rs' =>
    let r' := map (fun pc => fill (fst pc) (snd pc)) (combine prev r) in
    (d, r') :: ffill_from r' rs'
  end.

(** [DataFrame.ffill()]. *)
Definition ffill (f : DataFrame) : DataFrame :=
  {| columns := columns f;
     rows := match rows f with
             | [] => []
             | (d, r) :: rs => (d, r) :: ffill_from r rs
             end |}.

Fixpoint pct_rows_from (prev : list float) (rs : list (Z * list float))
    : list (Z * list float) :=
  match rs with
  | [] => []
  | (d, r) :: rs' =>
    (d, map (fun pc => fsub (fdiv (snd pc) (fst pc)) (Fin 1)) (combine prev r))
    :: pct_rows_from r rs'
  end.

(** [DataFrame.pct_change()]: the first row is all [nan]. *)
Definition pct_change_frame (f : DataFrame) : DataFrame :=
  {| columns := columns f;
     rows := match rows f with
             | [] => []
             | (d, r) :: rs => (d, map (fun _ => NaN) r) :: pct_rows_from r rs
             end |}.

(** [DataFrame.dropna()]: rows holding a [nan] go. *)
Definition dropna_frame (f : DataFrame) : DataFrame :=
  {| columns := columns f;
     rows := filter (fun dr => negb (existsb isna (snd dr))) (rows f) |}.

(** The cell of a row under the column labelled [k]. *)
Fixpoint cell_of (cols : list Z) (r : list float) (k : pyval) : float :=
  match cols, r with
  | c :: cols', x :: r' => if pyval_eqb k (PyInt c) then x else cell_of cols' r' k
  | _, _ => NaN
  end.

(** [frame[ids].dot(w)] on one row. *)
Definition dot (cols : list Z) (r : list float) (ids : list pyval)
    (w : list float) : float :=
  fsum (map (fun kw => fmul (cell_of cols r (fst kw)) (snd kw)) (combine ids w)).

(** [weights[cid]] for a key of the mapping. *)
Definition weight_of (weights : dict pyval float) (k : pyval) : float :=
  match dict_get pyval_eqb weights k with
  | Some v => v
  | None => NaN
  end.

(** The rows fetched for the year. *)
Definition year_rows (db : Database) (weights : dict pyval float) (year : Z)
    : list Price :=
  filter (fun p =>
            sql_in (price_company_id p) (map fst weights)
            && Z.leb (jan1 year) (price_date p)
            && Z.leb (price_date p) (dec31 year))
         (prices db).

(** [cid in daily_returns.columns], for the keys in order. *)
Definition valid_ids (weights : dict pyval float) (daily_returns : DataFrame)
    : list pyval :=
  filter (fun k => existsb (fun c => pyval_eqb k (PyInt c)) (columns daily_returns))
         (map fst weights).

(** [w / w.sum()]. *)
Definition normalized (w : list float) : list float :=
  map (fun x => fdiv x (fsum w)) w.

(** The series of daily portfolio returns, indexed by date. *)
Definition compute_portfolio_returns (db : Database) (weights : dict pyval float)
    (year : Z) : list (Z * float) :=
  match year_rows db weights year with
  | [] => []
  | df =>
    let daily_returns := dropna_frame (pct_change_frame (ffill (pivot df))) in
    let ids := valid_ids weights daily_returns in
    let w := normalized (map (weight_of weights) ids) in
    map (fun dr => (fst dr, dot (columns daily_returns) (snd dr) ids w))
        (rows daily_returns)
  end.

(** The record returned by [compute_metrics]; [None] is Python's [None]. *)
Record Metrics : Type := {
  mean_return : option float;
  median_return : option float;
  volatility : option float;
  sharpe : option float
}.

Definition compute_metrics (risk_free_rate : R) (returns : list (Z * float))
    : Metrics :=
  match returns with
  | [] => {| mean_return := None; median_return := None;
             volatility := None; sharpe := None |}
  | _ =>
    let values := map snd returns in
    let mean_ret := fmul (mean values) (Fin 252) in
    let median_ret := fmul (median values) (Fin 252) in
    let vol := fmul (std values) (Fin (sqrt 252)) in
    let sharpe' :=
      if fgt vol (Fin 0)
      then Some (fdiv (fsub mean_ret (Fin risk_free_rate)) vol)
      else None in
    {| mean_return := Some mean_ret; median_return := Some median_ret;
       volatility := Some vol; sharpe := sharpe' |}
  end.

(** A row of [rule_backtest_metrics]. *)
Record RuleBacktestMetric : Type := {
  rbm_rule_id : Z;
  rbm_year : Z;
  rbm_scheme : string;
  rbm_mean_return : option float;
  rbm_median_return : option float;
  rbm_volatility : option float;
  rbm_sharpe : option float
}.

(** [yp.weights.items()] as the inner loop of [run_backtest] takes it, each
    value a mapping from company id to weight; [None] when the loop raises:
    under a placeholder the value is a float, which has no [keys()]. *)
Definition scheme_items (w : weights_json)
    : option (list (string * dict string float)) :=
  match w with
  | Schemes d => Some d
  | Placeholder [] => Some []
  | Placeholder _ => None
  end.

(** The keys of a mapping read from the JSON column are strings. *)
Definition json_keyed (w : dict string float) : dict pyval float :=
  map (fun kv => (PyStr (fst kv), snd kv)) w.

(** The row added for one scheme of one portfolio. *)
Definition metric_row (risk_free_rate : R) (db : Database) (yp : YearlyPortfolio)
    (scheme : string) (weights : dict string float) : RuleBacktestMetric :=
  let returns := compute_portfolio_returns db (json_keyed weights) (yp_year yp) in
  let metrics := compute_metrics risk_free_rate returns in
  {| rbm_rule_id := yp_rule_id yp;
     rbm_year := yp_year yp;
     rbm_scheme := scheme;
     rbm_mean_return := mean_return metrics;
     rbm_median_return := median_return metrics;
     rbm_volatility := volatility metrics;
     rbm_sharpe := sharpe metrics |}.

(** The rows added for the portfolios in turn. *)
Fixpoint backtest_rows (risk_free_rate : R) (db : Database)
    (portfolios : list YearlyPortfolio) : option (list RuleBacktestMetric) :=
  match portfolios with
  | [] => Some []
  | yp :: rest =>
    match scheme_items (yp_weights yp) with
    | None => None
    | Some items =>
      match backtest_rows risk_free_rate db rest with
      | None => None
      | Some rows' =>
        Some (map (fun sw => metric_row risk_free_rate db yp (fst sw) (snd sw)) items
              ++ rows')
      end
    end
  end.

(** [run_backtest]: the rows inserted into [rule_backtest_metrics] by the
    single commit at the end, [None] when the run raises before it. *)
Definition run_backtest (risk_free_rate : R) (db : Database)
    (start_year end_year : Z) : option (list RuleBacktestMetric) :=
  backtest_rows risk_free_rate db
    (filter (fun yp => Z.leb start_year (yp_year yp) && Z.leb (yp_year yp) end_year)
            (yearly_portfolios db)).

End PortfolioBacktester.

(** ** [run_portfolio_weighting.py] *)

Module WeightingPass.

Import PortfolioGenerator PortfolioWeightingEngine.

(** The characters [int] strips from both ends of an ASCII string. *)
Definition is_space (a : ascii) : bool :=
  let n := nat_of_ascii a in
  ((9 <=? n) && (n <=? 13))%nat || ((28 <=? n) && (n <=? 32))%nat.

Fixpoint lstrip (s : string) : string :=
  match s with
  | String a s' => if is_space a then lstrip s' else s
  | EmptyString => EmptyString
  end.

Fixpoint rstrip (s : string) : string :=
  match s with
  | String a s' =>
    match rstrip s' with
    | EmptyString => if is_space a then EmptyString else String a EmptyString
    | r => String a r
    end
  | EmptyString => EmptyString
  end.

Definition is_decimal (a : ascii) : bool :=
  (48 <=? nat_of_ascii a)%nat && (nat_of_ascii a <=? 57)%nat.

(** The digits of a literal, its underscores removed: an underscore stands
    between two digits.  [after_digit] says that the character before is a
    digit. *)
Fixpoint digits_of (after_digit : bool) (s : string) : option string :=
  match s with
  | EmptyString => if after_digit then Some EmptyString else None
  | String a s' =>
    if is_decimal a then
      match digits_of true s' with
      | Some d => Some (String a d)
      | None => None
      end
    else if Ascii.eqb a "_" then
      if after_digit then
        match s' with
        | String b _ => if is_decimal b then digits_of false s' else None
        | EmptyString => None
        end
      else None
    else None
  end.

Definition unsigned_int (s : string) : option Z :=
  match digits_of false s with
  | Some d =>
    match NilZero.uint_of_string d with
    | Some u => Some (Z.of_uint u)
    | None => None
    end
  | None => None
  end.

(** [int(s)] for an ASCII string; [None] is [ValueError]. *)
Definition py_int (s : string) : option Z :=
  match lstrip (rstrip s) with
  | String a s' =>
    if Ascii.eqb a "-" then option_map Z.opp (unsigned_int s')
    else if Ascii.eqb a "+" then unsigned_int s'
    else unsigned_int (String a s')
  | EmptyString => None
  end.

(** [[int(cid) for cid in keys]]. *)
Fixpoint company_ids_of (keys : list string) : option (list Z) :=
  match keys with
  | [] => Some []
  | k :: keys' =>
    match py_int k with
    | None => None
    | Some cid =>
      match company_ids_of keys' with
      | Some cids => Some (cid :: cids)
      | None => None
      end
    end
  end.

(** [yp.weights.keys()]. *)
Definition weights_keys (w : weights_json) : list string :=
  match w with
  | Placeholder d => map fst d
  | Schemes d => map fst d
  end.

(** The body of the loop for one portfolio: the portfolio as the pass leaves
    it, [None] when the body raises. *)
Definition weigh (db : Database) (yp : YearlyPortfolio) : option YearlyPortfolio :=
  match weights_keys (yp_weights yp) with
  | [] => Some yp
  | keys =>
    match company_ids_of keys with
    | None => None
    | Some [] => Some yp
    | Some company_ids =>
      match compute_all_weights db company_ids (yp_year yp) default_schemes 252 252 with
      | Some all_calculated_weights =>
        Some {| yp_rule_id := yp_rule_id yp; yp_year := yp_year yp;
                yp_weights := Schemes all_calculated_weights |}
      | None => None
      end
    end
  end.

Fixpoint weigh_all (db : Database) (portfolios : list YearlyPortfolio)
    : option (list YearlyPortfolio) :=
  match portfolios with
  | [] => Some []
  | yp :: rest =>
    match weigh db yp with
    | None => None
    | Some yp' =>
      match weigh_all db rest with
      | Some rest' => Some (yp' :: rest')
      | None => None
      end
    end
  end.

(** The script: the store after its single commit, [None] when it raises
    before the commit and writes nothing. *)
Definition run_portfolio_weighting (db : Database) : option Database :=
  match weigh_all db (yearly_portfolios db) with
  | Some portfolios => Some (set_yearly_portfolios db portfolios)
  | None => None
  end.

End WeightingPass.

(** * Vocabulary of the properties *)

Import PortfolioGenerator PortfolioWeightingEngine PortfolioBacktester.

Local Open Scope R_scope.

(** The four comparison signs of a filter clause. *)
Definition recognised (s : string) : Prop :=
  s = ">"%string \/ s = "<"%string \/ s = ">="%string \/ s = "<="%string.






(** A mapping is a valid weighting of a list of companies when its keys are
    the string forms of the company ids, every weight is a non-negative
    number and the weights sum to 1 within 1e-6. *)
Definition valid_weights (ids : list Z) (w : dict string float) : Prop :=
  (forall cid, In cid ids -> In (str cid) (map fst w))
  /\ (forall k v, In (k, v) w ->
        (exists cid, In cid ids /\ k = str cid) /\ exists r, v = Fin r /\ 0 <= r)
  /\ exists s, fsum (map snd w) = Fin s /\ Rabs (s - 1) <= 1e-6.

(** The number a float holds, 0 for [nan]. *)
Definition to_R (x : float) : R :=
  match x with Fin r => r | NaN => 0 end.

(** The market-cap facts read for the companies are positive, one per
    company. *)
Definition market_caps_usable (db : Database) (ids : list Z) (year : Z) : Prop :=
  forall m,
    find (fun m => String.eqb (metric_name m) "market_cap") (metrics db) = Some m ->
    NoDup (map fin_company_id (market_cap_rows db m ids year))
    /\ forall f, In f (market_cap_rows db m ids year) -> 0 < fin_value f.

(** Every company has fewer than two closes among its last [lookback] rows of
    the volatility window, or at least three, none of them 0: with exactly
    two closes the single return has no sample deviation. *)
Definition volatilities_usable (db : Database) (ids : list Z) (year lookback : Z)
    : Prop :=
  forall cid, In cid ids ->
    let ps := tail lookback (closes_of (vol_frame db ids year lookback) cid) in
    (List.length ps < 2)%nat
    \/ ((3 <= List.length ps)%nat /\ forall p, In p ps -> p <> 0).

(** Every company with two closes or more in the momentum window has a first
    close other than 0. *)
Definition momentum_usable (db : Database) (ids : list Z) (year period : Z) : Prop :=
  forall cid, In cid ids ->
    let ps := closes_of (mom_frame db ids year period) cid in
    (List.length ps < 2)%nat \/ hd 0 ps <> 0.


Definition null_metrics : Metrics :=
  {| mean_return := None; median_return := None;
     volatility := None; sharpe := None |}.

(** ** A small store *)

(** Three companies; return on equity and market cap of fiscal 2020 for the
    first two; two closes of company 1 on 4 and 5 January 2021. *)

Definition roe_fact_1 : Financial :=
  {| fin_company_id := 1; fin_metric_id := 1; period_label := "FY2020";
     fin_value := 20 |}.

Definition sample_db : Database :=
  {| companies := [1; 2; 3]%Z;
     metrics := [ {| metric_id := 1; metric_name := "ROE" |};
                  {| metric_id := 2; metric_name := "market_cap" |} ];
     financials :=
       [ roe_fact_1;
         {| fin_company_id := 2; fin_metric_id := 1; period_label := "FY2020";
            fin_value := 10 |};
         {| fin_company_id := 1; fin_metric_id := 2; period_label := "FY2020";
            fin_value := 300 |};
         {| fin_company_id := 2; fin_metric_id := 2; period_label := "FY2020";
            fin_value := 100 |} ];
     prices :=
       [ {| price_company_id := 1; price_date := 737794; close := 100 |};
         {| price_company_id := 1; price_date := 737795; close := 110 |} ];
     yearly_portfolios := [] |}.

(** Three companies with closes on two days of 2020: company 1 gains 30%,
    company 2 loses 10%, company 3 is flat. *)
Definition momentum_db : Database :=
  {| companies := [1; 2; 3]%Z;
     metrics := [];
     financials := [];
     prices :=
       [ {| price_company_id := 1; price_date := 737600; close := 100 |};
         {| price_company_id := 2; price_date := 737600; close := 100 |};
         {| price_company_id := 3; price_date := 737600; close := 100 |};
         {| price_company_id := 1; price_date := 737700; close := 130 |};
         {| price_company_id := 2; price_date := 737700; close := 90 |};
         {| price_company_id := 3; price_date := 737700; close := 100 |} ];
     yearly_portfolios := [] |}.

Definition roe_clause : FilterClause :=
  {| f_name := "ROE"; f_sign := ">"; f_threshold := 15 |}.


Definition odd_clause : FilterClause :=
  {| f_name := "ROE"; f_sign := "=="; f_threshold := 15 |}.



(** Two equal weights under string keys, as the JSON column yields them, and
    under integer keys. *)
Definition string_keyed : dict pyval float :=
  [(PyStr "1", Fin 0.5); (PyStr "2", Fin 0.5)].

Definition int_keyed : dict pyval float :=
  [(PyInt 1, Fin 0.5); (PyInt 2, Fin 0.5)].

(** ** Vocabulary of the further properties *)

(** The comparison that a clause with a recognised sign makes on a value. *)
Definition passes (f : FilterClause) (v : R) : Prop :=
  (f_sign f = ">"%string /\ f_threshold f < v)
  \/ (f_sign f = "<"%string /\ v < f_threshold f)
  \/ (f_sign f = ">="%string /\ f_threshold f <= v)
  \/ (f_sign f = "<="%string /\ v <= f_threshold f).

(** Company [cid] has a fact of the metric named by clause [f], labelled with
    the previous year, whose value passes the comparison of the clause. *)
Definition qualifies (db : Database) (year : Z) (cid : Z) (f : FilterClause)
    : Prop :=
  exists fin m,
    In fin (financials db) /\ In m (metrics db)
    /\ fin_company_id fin = cid
    /\ fin_metric_id fin = metric_id m
    /\ metric_name m = f_name f
    /\ endswith (period_label fin) (str (year - 1)) = true
    /\ passes f (fin_value fin).

(** The key of a portfolio record. *)
Definition key_of (yp : YearlyPortfolio) : Z * Z := (yp_rule_id yp, yp_year yp).



(** Two stores hold the same companies, metrics, facts and prices. *)
Definition same_facts (db db' : Database) : Prop :=
  companies db' = companies db /\ metrics db' = metrics db
  /\ financials db' = financials db /\ prices db' = prices db.




(** Two facts or more of the market-cap metric, labelled with the previous
    year, belong to one of the listed companies. *)
Definition repeated_market_cap_fact (db : Database) (ids : list Z) (year : Z)
    : Prop :=
  exists m,
    find (fun m => String.eqb (metric_name m) "market_cap") (metrics db) = Some m
    /\ ~ NoDup (map fin_company_id (market_cap_rows db m ids year)).


(** The market-cap scheme reads value [v] for company [cid]: a fact of the
    first metric named [market_cap], labelled with the previous year. *)
Definition market_cap_read (db : Database) (year : Z) (cid : Z) (v : R) : Prop :=
  exists m f,
    find (fun m => String.eqb (metric_name m) "market_cap") (metrics db) = Some m
    /\ In f (financials db)
    /\ fin_company_id f = cid
    /\ fin_metric_id f = metric_id m
    /\ endswith (period_label f) (str (year - 1)) = true
    /\ fin_value f = v.

(** The capitalisation the scheme uses for a company: the value read, 1 when
    there is none. *)
Definition capitalisation (db : Database) (year : Z) (cid : Z) (v : R) : Prop :=
  market_cap_read db year cid v
  \/ ((forall v', ~ market_cap_read db year cid v') /\ v = 1).

(** The function behind [capitalisation]. *)
Definition market_cap_of (db : Database) (ids : list Z) (year : Z) (cid : Z) : R :=
  match find (fun m => String.eqb (metric_name m) "market_cap") (metrics db) with
  | None => 1
  | Some m =>
    match find (fun f => Z.eqb (fin_company_id f) cid) (market_cap_rows db m ids year) with
    | Some f => fin_value f
    | None => 1
    end
  end.

(** A price row dated before 1 January of the year. *)
Definition known_before (year : Z) (p : Price) : bool :=
  Z.ltb (price_date p) (jan1 year).

(** Two stores agree on what is known at the start of the year: the metric
    catalogue, the facts labelled with the previous year and the prices dated
    before 1 January. *)
Definition same_past (year : Z) (db db' : Database) : Prop :=
  metrics db' = metrics db
  /\ filter (lagged year) (financials db') = filter (lagged year) (financials db)
  /\ filter (known_before year) (prices db') = filter (known_before year) (prices db).

(** The small store without its price rows, which are of 2021. *)
Definition sample_db_without_prices : Database :=
  {| companies := companies sample_db;
     metrics := metrics sample_db;
     financials := financials sample_db;
     prices := [];
     yearly_portfolios := yearly_portfolios sample_db |}.

Import WeightingPass.

(** A string of decimal digits. *)
Fixpoint all_decimal (s : string) : bool :=
  match s with
  | EmptyString => true
  | String a s' => is_decimal a && all_decimal s'
  end.

(** The small store after [generate_portfolio] for the rule on return on
    equity and 2021. *)
Definition generated_db : Database :=
  set_yearly_portfolios sample_db
    [{| yp_rule_id := 7; yp_year := 2021;
        yp_weights := Placeholder [("1"%string, Fin 0)] |}].

(** A portfolio still holding the placeholder of a selection: the values under
    its keys are floats, not mappings. *)
Definition unweighted (yp : YearlyPortfolio) : Prop :=
  exists d, yp_weights yp = Placeholder d /\ d <> [].

(** What identifies a row of the metrics table. *)
Definition row_key (r : RuleBacktestMetric) : Z * Z * string :=
  (rbm_rule_id r, rbm_year r, rbm_scheme r).


(** The small store with a weighted portfolio of company 1 for 2021. *)
Definition weighted_db : Database :=
  set_yearly_portfolios sample_db
    [{| yp_rule_id := 7; yp_year := 2021;
        yp_weights := Schemes [("equal"%string, [("1"%string, Fin 1)])] |}].


(** A year written with four digits: [date(year, 1, 1)] exists, and the
    store reads [f"{year}-01-01"] as the first day of that year. *)
Definition calendar_year (year : Z) : Prop := (1000 <= year <= 9999)%Z.

(** The window of [span] days that ends on the eve of the year lies within
    the range of [datetime.date], so that the two dates of the window
    exist. *)
Definition window_in_calendar (year span : Z) : Prop :=
  calendar_year year /\ (1 <= jan1 year - 1 - span <= 3652059)%Z.




(** * Properties *)


(** ** Booleans on reals *)

Lemma Rltb_true x y : Rltb x y = true <-> x < y.
Proof. unfold Rltb. destruct (Rlt_dec x y); split; intros; try lra; discriminate. Qed.

Lemma Rltb_false x y : Rltb x y = false <-> y <= x.
Proof. unfold Rltb. destruct (Rlt_dec x y); split; intros; try lra; discriminate. Qed.

Lemma Rleb_true x y : Rleb x y = true <-> x <= y.
Proof. unfold Rleb. destruct (Rle_dec x y); split; intros; try lra; discriminate. Qed.



Lemma Reqb_false x y : Reqb x y = false <-> x <> y.
Proof.
  unfold Reqb. destruct (Req_dec_T x y); split; intros; try discriminate; tauto.
Qed.

Lemma fdiv_fin x y : y <> 0 -> fdiv (Fin x) (Fin y) = Fin (x / y).
Proof. intros H. simpl. apply Reqb_false in H. now rewrite H. Qed.

(** Resolves one comparison of concrete reals left by evaluation. *)
Ltac real_test :=
  match goal with
  | |- context [Rlt_dec ?a ?b] =>
    let H := fresh in
    first
      [ assert (H : a < b) by lra;
        destruct (Rlt_dec a b) as [_|?]; [|exfalso; auto]
      | assert (H : ~ a < b) by lra;
        destruct (Rlt_dec a b) as [?|_]; [exfalso; auto|] ];
    clear H
  | |- context [Rle_dec ?a ?b] =>
    let H := fresh in
    first
      [ assert (H : a <= b) by lra;
        destruct (Rle_dec a b) as [_|?]; [|exfalso; auto]
      | assert (H : ~ a <= b) by lra;
        destruct (Rle_dec a b) as [?|_]; [exfalso; auto|] ];
    clear H
  | |- context [Req_dec_T ?a ?b] =>
    let H := fresh in
    first
      [ assert (H : a = b) by lra;
        destruct (Req_dec_T a b) as [_|?]; [|exfalso; auto]
      | assert (H : a <> b) by lra;
        destruct (Req_dec_T a b) as [?|_]; [exfalso; auto|] ];
    clear H
  end.

Ltac reduce :=
  cbv -[Rlt_dec Rle_dec Req_dec_T IZR INR sqrt Rplus Rmult Rminus Rdiv Rinv
        Ropp Rabs Rmax].

(** Evaluates a closed term down to its arithmetic on reals. *)
Ltac evaluate := reduce; repeat (real_test; reduce).

(** ** [str] and [endswith] *)

Lemma to_int_nonnil z :
  Z.to_int z <> Decimal.Pos Decimal.Nil /\ Z.to_int z <> Decimal.Neg Decimal.Nil.
Proof.
  destruct z; simpl; split; try discriminate; intro H; injection H;
    apply DecimalPos.Unsigned.to_uint_nonnil.
Qed.

Lemma str_inj a b : str a = str b -> a = b.
Proof.
  unfold str. intros H.
  pose proof (@NilZero.isi _ (proj1 (to_int_nonnil a)) (proj2 (to_int_nonnil a))) as Ha.
  pose proof (@NilZero.isi _ (proj1 (to_int_nonnil b)) (proj2 (to_int_nonnil b))) as Hb.
  rewrite H in Ha. rewrite Ha in Hb. injection Hb as E.
  rewrite <- (DecimalZ.of_to a), <- (DecimalZ.of_to b). now rewrite E.
Qed.

Lemma length_append (p t : string) :
  String.length (p ++ t) = (String.length p + String.length t)%nat.
Proof. induction p; simpl; congruence. Qed.

Lemma substring_all (t : string) : substring 0 (String.length t) t = t.
Proof. induction t; simpl; congruence. Qed.

Lemma substring_append (p t : string) :
  substring (String.length p) (String.length t) (p ++ t) = t.
Proof. induction p; simpl; auto using substring_all. Qed.

Lemma endswith_append (p t : string) : endswith (p ++ t) t = true.
Proof.
  unfold endswith. rewrite length_append.
  replace (String.length p + String.length t - String.length t)%nat
    with (String.length p) by lia.
  rewrite substring_append, String.eqb_refl, andb_true_r.
  apply Nat.leb_le. lia.
Qed.


(** ** Dictionaries *)

Section DictFacts.
Variables K V : Type.
Variable eqb : K -> K -> bool.
Hypothesis eqb_eq : forall a b, eqb a b = true <-> a = b.

Lemma eqb_neq a b : eqb a b = false <-> a <> b.
Proof.
  split.
  - intros H E. apply eqb_eq in E. congruence.
  - intros H. destruct (eqb a b) eqn:E; auto. apply eqb_eq in E. contradiction.
Qed.

Lemma dict_set_fresh (d : dict K V) k v :
  ~ In k (map fst d) -> dict_set eqb d k v = d ++ [(k, v)].
Proof.
  induction d as [|[k' v'] d IH]; simpl; intros H; auto.
  destruct (eqb k' k) eqn:E.
  - apply eqb_eq in E. subst. tauto.
  - rewrite IH; auto.
Qed.

Lemma fold_set_nodup (items acc : list (K * V)) :
  NoDup (map fst (acc ++ items)) ->
  fold_left (fun d kv => dict_set eqb d (fst kv) (snd kv)) items acc = acc ++ items.
Proof.
  revert acc. induction items as [|[k v] items IH]; intros acc H; simpl.
  - now rewrite app_nil_r.
  - rewrite dict_set_fresh.
    + rewrite IH; rewrite <- app_assoc; auto.
    + rewrite map_app in H. simpl in H. apply NoDup_remove_2 in H.
      intro Hin. apply H. apply in_or_app. now left.
Qed.

(** Items with pairwise different keys make the dictionary they list. *)
Lemma dict_of_items_nodup (items : list (K * V)) :
  NoDup (map fst items) -> dict_of_items eqb items = items.
Proof. intros H. unfold dict_of_items. now rewrite fold_set_nodup. Qed.

Lemma dict_set_keys (d : dict K V) k v k0 :
  In k0 (map fst (dict_set eqb d k v)) <-> In k0 (map fst d) \/ k0 = k.
Proof.
  induction d as [|[k' v'] d IH]; simpl.
  - intuition congruence.
  - destruct (eqb k' k) eqn:E; simpl.
    + apply eqb_eq in E. subst. intuition congruence.
    + rewrite IH. tauto.
Qed.

Lemma dict_set_nodup (d : dict K V) k v :
  NoDup (map fst d) -> NoDup (map fst (dict_set eqb d k v)).
Proof.
  induction d as [|[k' v'] d IH]; simpl; intros H.
  - constructor; [simpl; tauto | constructor].
  - inversion H; subst. destruct (eqb k' k) eqn:E; simpl.
    + constructor; auto.
    + constructor; auto. rewrite dict_set_keys. intros [Hin|Hk]; auto.
      apply eqb_neq in E. congruence.
Qed.

Lemma dict_set_in (d : dict K V) k v k0 v0 :
  In (k0, v0) (dict_set eqb d k v) -> In (k0, v0) d \/ (k0 = k /\ v0 = v).
Proof.
  induction d as [|[k' v'] d IH]; simpl.
  - intros [H|[]]. inversion H. auto.
  - destruct (eqb k' k) eqn:E; simpl.
    + apply eqb_eq in E. subst. intros [H|H]; auto. inversion H. auto.
    + intros [H|H]; auto. apply IH in H. tauto.
Qed.

Lemma fold_set_keys (items acc : list (K * V)) k0 :
  In k0 (map fst (fold_left (fun d kv => dict_set eqb d (fst kv) (snd kv)) items acc))
  <-> In k0 (map fst acc) \/ In k0 (map fst items).
Proof.
  revert acc. induction items as [|[k v] items IH]; intros acc; simpl.
  - tauto.
  - rewrite IH, dict_set_keys. intuition (subst; auto).
Qed.

Lemma fold_set_nodup_keys (items acc : list (K * V)) :
  NoDup (map fst acc) ->
  NoDup (map fst (fold_left (fun d kv => dict_set eqb d (fst kv) (snd kv)) items acc)).
Proof.
  revert acc. induction items as [|[k v] items IH]; intros acc H; simpl; auto.
  apply IH. now apply dict_set_nodup.
Qed.

Lemma fold_set_in (items acc : list (K * V)) k0 v0 :
  In (k0, v0) (fold_left (fun d kv => dict_set eqb d (fst kv) (snd kv)) items acc) ->
  In (k0, v0) acc \/ In (k0, v0) items.
Proof.
  revert acc. induction items as [|[k v] items IH]; intros acc; simpl; auto.
  intros H. apply IH in H. destruct H as [H|H]; auto.
  apply dict_set_in in H. destruct H as [H|[H1 H2]]; subst; auto.
Qed.

Lemma dict_of_items_keys (items : list (K * V)) k0 :
  In k0 (map fst (dict_of_items eqb items)) <-> In k0 (map fst items).
Proof. unfold dict_of_items. rewrite fold_set_keys. simpl. tauto. Qed.

Lemma dict_of_items_keys_nodup (items : list (K * V)) :
  NoDup (map fst (dict_of_items eqb items)).
Proof. apply fold_set_nodup_keys. constructor. Qed.

Lemma dict_of_items_in (items : list (K * V)) k0 v0 :
  In (k0, v0) (dict_of_items eqb items) -> In (k0, v0) items.
Proof. intros H. apply fold_set_in in H. destruct H as [[]|H]; auto. Qed.

Lemma dict_get_in (d : dict K V) k v :
  dict_get eqb d k = Some v -> In (k, v) d.
Proof.
  induction d as [|[k' v'] d IH]; simpl; try discriminate.
  destruct (eqb k' k) eqn:E.
  - apply eqb_eq in E. subst. intros H. inversion H. auto.
  - auto.
Qed.

Lemma dict_get_none (d : dict K V) k :
  dict_get eqb d k = None <-> ~ In k (map fst d).
Proof.
  induction d as [|[k' v'] d IH]; simpl.
  - tauto.
  - destruct (eqb k' k) eqn:E.
    + apply eqb_eq in E. subst. split; try discriminate. tauto.
    + apply eqb_neq in E. rewrite IH. tauto.
Qed.

Lemma in_dict_get (d : dict K V) k v :
  NoDup (map fst d) -> In (k, v) d -> dict_get eqb d k = Some v.
Proof.
  induction d as [|[k' v'] d IH]; simpl; intros N H; try tauto.
  inversion N; subst. destruct H as [H|H].
  - inversion H; subst. now rewrite (proj2 (eqb_eq k k) eq_refl).
  - destruct (eqb k' k) eqn:E; auto.
    apply eqb_eq in E. subst. exfalso. apply H2.
    change k with (fst (k, v)). now apply in_map.
Qed.

(** When every item carries the value [f] of its key, so does the
    dictionary, on exactly the keys listed. *)
Lemma dict_of_items_fun (f : K -> V) (keys : list K) k :
  In k keys ->
  dict_get eqb (dict_of_items eqb (map (fun c => (c, f c)) keys)) k = Some (f k).
Proof.
  intros H.
  destruct (dict_get eqb (dict_of_items eqb (map (fun c => (c, f c)) keys)) k) eqn:E.
  - apply dict_get_in, dict_of_items_in, in_map_iff in E.
    destruct E as [c [E _]]. inversion E; subst. reflexivity.
  - apply dict_get_none in E. exfalso. apply E.
    apply dict_of_items_keys. rewrite map_map. simpl. now rewrite map_id.
Qed.
End DictFacts.

(** ** Portfolio generation: the write of the placeholder *)










(** ** Filter clauses with an unrecognised sign *)

Lemma filter_condition_unrecognised f :
  ~ recognised (f_sign f) -> filter_condition f = None.
Proof.
  unfold recognised, filter_condition. intros H.
  destruct (String.eqb (f_sign f) ">") eqn:E1; [apply String.eqb_eq in E1; tauto|].
  destruct (String.eqb (f_sign f) "<") eqn:E2; [apply String.eqb_eq in E2; tauto|].
  destruct (String.eqb (f_sign f) ">=") eqn:E3; [apply String.eqb_eq in E3; tauto|].
  destruct (String.eqb (f_sign f) "<=") eqn:E4; [apply String.eqb_eq in E4; tauto|].
  reflexivity.
Qed.

Lemma apply_filter_unrecognised db year q f :
  ~ recognised (f_sign f) -> apply_filter db year q f = q.
Proof. intros H. unfold apply_filter. now rewrite filter_condition_unrecognised. Qed.

Lemma eligible_skip db year f fs1 fs2 :
  ~ recognised (f_sign f) ->
  eligible_company_ids db (fs1 ++ f :: fs2) year = eligible_company_ids db (fs1 ++ fs2) year.
Proof.
  intros H. unfold eligible_company_ids.
  rewrite !fold_left_app. simpl. now rewrite apply_filter_unrecognised.
Qed.

(** C8.  A clause whose sign is none of [>], [<], [>=], [<=] leaves the query
    as it is: the eligible companies, the ranked list and, as long as another
    clause remains, the whole outcome of [generate_portfolio] are those of the
    rule without the clause; the call does not raise because of it. *)
Theorem unrecognised_sign_is_skipped db year rid f fs1 fs2 :
  ~ recognised (f_sign f) ->
  (forall q, apply_filter db year q f = q)
  /\ eligible_company_ids db (fs1 ++ f :: fs2) year
     = eligible_company_ids db (fs1 ++ fs2) year
  /\ top_company_ids db (fs1 ++ f :: fs2) year = top_company_ids db (fs1 ++ fs2) year
  /\ (fs1 ++ fs2 <> [] ->
      generate_portfolio db {| rule_id := rid; rule_filters := fs1 ++ f :: fs2 |} year
      = generate_portfolio db {| rule_id := rid; rule_filters := fs1 ++ fs2 |} year).
Proof.
  intros H. split; [|split; [|split]].
  - intros q. now apply apply_filter_unrecognised.
  - now apply eligible_skip.
  - unfold top_company_ids. now rewrite eligible_skip.
  - intros Hne. unfold generate_portfolio. simpl.
    assert (top_company_ids db (fs1 ++ f :: fs2) year
            = top_company_ids db (fs1 ++ fs2) year) as T
      by (unfold top_company_ids; now rewrite eligible_skip).
    destruct (fs1 ++ f :: fs2) as [|a l] eqn:A; [destruct fs1; discriminate|].
    destruct (fs1 ++ fs2) as [|b l'] eqn:B; [contradiction|].
    rewrite T. reflexivity.
Qed.

(** ** The stable descending sort *)

Section SortFacts.
Variable A : Type.
Variable key : A -> R.


Lemma insert_by_perm (le : A -> A -> bool) x l :
  Permutation (x :: l) (insert_by le x l).
Proof.
  induction l as [|y l IH]; simpl; auto.
  destruct (le x y); auto.
  eapply perm_trans; [apply perm_swap|]. now constructor.
Qed.

Lemma sort_by_perm (le : A -> A -> bool) l : Permutation l (sort_by le l).
Proof.
  induction l as [|x l IH]; simpl; auto.
  eapply perm_trans; [|apply insert_by_perm]. now constructor.
Qed.




End SortFacts.

(** Where an entry of the mapping used for ranking comes from. *)
Lemma market_cap_for_sorting_entry db ids year cid v :
  dict_get Z.eqb (get_market_cap_for_sorting db ids year) cid = Some v ->
  (find (fun m => String.eqb (metric_name m) "market_cap") (metrics db) = None
   /\ v = 0)
  \/ exists m f,
       find (fun m => String.eqb (metric_name m) "market_cap") (metrics db) = Some m
       /\ In f (financials db)
       /\ fin_company_id f = cid
       /\ fin_metric_id f = metric_id m
       /\ lagged year f = true
       /\ fin_value f = v.
Proof.
  unfold get_market_cap_for_sorting. destruct ids as [|c ids]; [discriminate|].
  destruct (find (fun m => String.eqb (metric_name m) "market_cap") (metrics db))
    as [m|]; intros H; apply (dict_get_in _ Z.eqb_eq), (dict_of_items_in _ Z.eqb_eq),
                        in_map_iff in H; destruct H as [x [E H]].
  - right. exists m, x. inversion E; subst. apply filter_In in H.
    destruct H as [Hin H]. apply andb_true_iff in H. destruct H as [H L].
    apply andb_true_iff in H. destruct H as [_ M]. apply Z.eqb_eq in M.
    repeat split; auto.
  - left. inversion E. auto.
Qed.


(** ** Causality of the filter evaluation *)

Lemma filter_implied (A : Type) (g h : A -> bool) (l : list A) :
  (forall x, g x = true -> h x = true) -> filter g (filter h l) = filter g l.
Proof.
  intros H. induction l as [|x l IH]; simpl; auto.
  destruct (h x) eqn:Hx; simpl; rewrite IH; auto.
  destruct (g x) eqn:Gx; auto. apply H in Gx. congruence.
Qed.

Lemma filter_none (A : Type) (g : A -> bool) (l : list A) :
  (forall x, In x l -> g x = false) -> filter g l = [].
Proof.
  induction l as [|x l IH]; simpl; intros H; auto.
  rewrite (H x) by auto. auto.
Qed.



Section Causality.
Variables db1 db2 : Database.
Variable year : Z.
Hypothesis same_companies : companies db1 = companies db2.
Hypothesis same_metrics : metrics db1 = metrics db2.
Hypothesis same_portfolios : yearly_portfolios db1 = yearly_portfolios db2.
Hypothesis same_lagged :
  filter (lagged year) (financials db1) = filter (lagged year) (financials db2).






End Causality.


(** ** Weighting: sums and normalisation *)

Lemma fsum_fin (F : Z -> float) (g : Z -> R) (ids : list Z) :
  (forall cid, In cid ids -> F cid = Fin (g cid)) ->
  fsum (map F ids) = Fin (Rsum (map g ids)).
Proof.
  induction ids as [|c ids IH]; simpl; intros H; auto.
  rewrite IH by auto. rewrite (H c) by auto. reflexivity.
Qed.

Lemma nansum_fin (F : Z -> float) (g : Z -> R) (ids : list Z) :
  (forall cid, In cid ids -> F cid = Fin (g cid)) ->
  nansum (map F ids) = Rsum (map g ids).
Proof.
  unfold nansum. induction ids as [|c ids IH]; simpl; intros H; auto.
  rewrite (H c) by auto. simpl. rewrite IH by auto. reflexivity.
Qed.

Lemma Rsum_scale (g : Z -> R) (t : R) (ids : list Z) :
  Rsum (map (fun cid => g cid / t) ids) = Rsum (map g ids) / t.
Proof.
  induction ids as [|c ids IH]; simpl.
  - unfold Rdiv. now rewrite Rmult_0_l.
  - rewrite IH. unfold Rdiv. now rewrite Rmult_plus_distr_r.
Qed.

Lemma Rsum_const (c : R) (ids : list Z) :
  Rsum (map (fun _ => c) ids) = INR (List.length ids) * c.
Proof.
  induction ids as [|x ids IH].
  - simpl. lra.
  - change (Rsum (map (fun _ => c) (x :: ids)))
      with (c + Rsum (map (fun _ => c) ids)).
    change (List.length (x :: ids)) with (S (List.length ids)).
    rewrite IH, S_INR. lra.
Qed.

Lemma Rsum_nonneg (g : Z -> R) (ids : list Z) :
  (forall cid, In cid ids -> 0 <= g cid) -> 0 <= Rsum (map g ids).
Proof.
  induction ids as [|c ids IH]; simpl; intros H; [lra|].
  specialize (H c (or_introl eq_refl)) as Hc. specialize (IH (fun x Hx => H x (or_intror Hx))).
  lra.
Qed.

Lemma Rsum_pos (g : Z -> R) (ids : list Z) :
  ids <> [] -> (forall cid, In cid ids -> 0 < g cid) -> 0 < Rsum (map g ids).
Proof.
  destruct ids as [|c ids]; [congruence|]. intros _ H. simpl.
  assert (0 <= Rsum (map g ids)).
  { apply Rsum_nonneg. intros x Hx. apply Rlt_le, H. now right. }
  specialize (H c (or_introl eq_refl)). lra.
Qed.


Lemma NoDup_map_str (ids : list Z) : NoDup ids -> NoDup (map str ids).
Proof.
  induction 1 as [|c ids Hc N IH]; simpl; constructor; auto.
  intros H. apply in_map_iff in H. destruct H as [c' [E H]].
  apply str_inj in E. now subst.
Qed.

(** A series with one entry per company of a duplicate-free list, keyed by
    string. *)
Lemma stringify_fun (F : Z -> float) (ids : list Z) :
  NoDup ids ->
  stringify (map (fun cid => (cid, F cid)) ids) = map (fun cid => (str cid, F cid)) ids.
Proof.
  intros N. unfold stringify.
  rewrite (dict_of_items_nodup _ Z.eqb_eq).
  - rewrite map_map. simpl. rewrite (dict_of_items_nodup _ String.eqb_eq); auto.
    rewrite map_map. simpl. now apply NoDup_map_str.
  - rewrite map_map. simpl. now rewrite map_id.
Qed.

Lemma dict_of_items_fun_nodup (F : Z -> float) (ids : list Z) :
  NoDup ids ->
  dict_of_items Z.eqb (map (fun cid => (cid, F cid)) ids) = map (fun cid => (cid, F cid)) ids.
Proof.
  intros N. apply (dict_of_items_nodup _ Z.eqb_eq).
  rewrite map_map. simpl. now rewrite map_id.
Qed.

Lemma normalize_fun (F : Z -> float) (ids : list Z) :
  normalize (map (fun cid => (cid, F cid)) ids)
  = map (fun cid => (cid, fdiv (F cid) (Fin (nansum (map F ids))))) ids.
Proof. unfold normalize. rewrite !map_map. reflexivity. Qed.

(** Weights listed per company that are non-negative numbers of sum 1. *)
Lemma valid_weights_fun (F : Z -> float) (g : Z -> R) (ids : list Z) :
  (forall cid, In cid ids -> F cid = Fin (g cid)) ->
  (forall cid, In cid ids -> 0 <= g cid) ->
  Rsum (map g ids) = 1 ->
  valid_weights ids (map (fun cid => (str cid, F cid)) ids).
Proof.
  intros HF Hg Hs. unfold valid_weights. rewrite !map_map. simpl. repeat split.
  - intros cid H. now apply (in_map str).
  - apply in_map_iff in H. destruct H as [c [E H]]. inversion E; subst. eauto.
  - apply in_map_iff in H. destruct H as [c [E H]]. inversion E; subst.
    exists (g c). auto.
  - exists 1. rewrite (fsum_fin F g) by auto. rewrite Hs. split; auto.
    replace (1 - 1) with 0 by lra. rewrite Rabs_R0. lra.
Qed.

(** Normalising non-negative numbers of positive sum gives valid weights. *)
Lemma normalized_valid (F : Z -> float) (g : Z -> R) (ids : list Z) :
  NoDup ids ->
  (forall cid, In cid ids -> F cid = Fin (g cid)) ->
  (forall cid, In cid ids -> 0 <= g cid) ->
  0 < Rsum (map g ids) ->
  valid_weights ids (stringify (normalize (map (fun cid => (cid, F cid)) ids))).
Proof.
  intros N HF Hg Hs. rewrite normalize_fun, stringify_fun by auto.
  rewrite (nansum_fin F g) by auto.
  apply (@valid_weights_fun _ (fun cid => g cid / Rsum (map g ids))).
  - intros cid H. rewrite (HF cid H). apply fdiv_fin. lra.
  - intros cid H. apply Rmult_le_pos; auto. apply Rlt_le, Rinv_0_lt_compat. lra.
  - rewrite Rsum_scale. field. lra.
Qed.

(** Equal shares over a duplicate-free, non-empty list are valid weights. *)
Lemma equal_shares_valid (ids : list Z) :
  ids <> [] -> NoDup ids ->
  valid_weights ids
    (map (fun cid => (str cid, Fin (1 / INR (List.length ids)))) ids).
Proof.
  intros Hne N.
  apply (@valid_weights_fun (fun _ => Fin (1 / INR (List.length ids)))
                            (fun _ => 1 / INR (List.length ids))); auto.
  - intros cid _. apply Rlt_le. apply Rdiv_lt_0_compat; [lra|].
    apply lt_0_INR. destruct ids; simpl; [congruence | lia].
  - rewrite Rsum_const. field. apply not_0_INR. destruct ids; simpl; congruence.
Qed.

(** ** Weighting: the four schemes *)

Lemma compute_weights_equal db ids year lb mp :
  ids <> [] ->
  compute_weights db ids year "equal" lb mp
  = Some (dict_of_items String.eqb
            (map (fun k => (k, Fin (1 / INR (List.length (map str ids)))))
                 (map str ids))).
Proof. destruct ids; [congruence | reflexivity]. Qed.

Lemma compute_weights_market_cap db ids year lb mp :
  ids <> [] ->
  compute_weights db ids year "market_cap" lb mp
  = match get_market_caps db ids year with
    | None => None
    | Some mcaps => Some (stringify (normalize mcaps))
    end.
Proof. destruct ids; [congruence | reflexivity]. Qed.

Lemma compute_weights_inverse_vol db ids year lb mp :
  ids <> [] ->
  compute_weights db ids year "inverse_vol" lb mp
  = Some (stringify (normalize
            (map (fun kv => (fst kv, fdiv (Fin 1) (fadd (snd kv) (Fin 1e-8))))
                 (get_volatility db ids year lb)))).
Proof. destruct ids; [congruence | reflexivity]. Qed.

Lemma compute_weights_momentum db ids year lb mp :
  compute_weights db ids year "momentum" lb mp
  = Some (stringify
            (if Rltb 0 (nansum (map snd (mom_series db ids year mp)))
             then normalize (mom_series db ids year mp)
             else map (fun cid => (cid, Fin (1 / INR (List.length ids)))) ids)).
Proof.
  destruct ids; [|reflexivity].
  change (mom_series db [] year mp) with (@nil (Z * float)).
  simpl. destruct (Rltb 0 (nansum [])); reflexivity.
Qed.

Lemma distinct_nodup (l : list Z) : NoDup l -> distinct l = l.
Proof.
  induction 1 as [|x l Hx N IH]; simpl; auto. rewrite IH. f_equal.
  clear IH N. induction l as [|y l IH]; simpl; auto.
  destruct (Z.eqb y x) eqn:E; simpl.
  - apply Z.eqb_eq in E. subst. exfalso. apply Hx. now left.
  - f_equal. apply IH. intros H. apply Hx. now right.
Qed.

Lemma has_dup_nodup (l : list Z) : NoDup l -> has_dup l = false.
Proof. intros N. unfold has_dup. now rewrite distinct_nodup, Nat.eqb_refl. Qed.

(** *** Market capitalisation *)

Lemma get_market_caps_positive db ids year :
  market_caps_usable db ids year ->
  exists g, get_market_caps db ids year = Some (map (fun cid => (cid, Fin (g cid))) ids)
            /\ forall cid, 0 < g cid.
Proof.
  intros U. unfold get_market_caps.
  destruct (find (fun m => String.eqb (metric_name m) "market_cap") (metrics db))
    as [m|] eqn:M.
  - destruct (U m M) as [N P].
    destruct (market_cap_rows db m ids year) as [|f0 df] eqn:D.
    + exists (fun _ => 1). split; auto. intros; lra.
    + rewrite has_dup_nodup by auto.
      exists (fun cid =>
                match find (fun f => Z.eqb (fin_company_id f) cid) (f0 :: df) with
                | Some f => fin_value f
                | None => 1
                end).
      split.
      * f_equal. apply map_ext. intros cid.
        destruct (find (fun f => Z.eqb (fin_company_id f) cid) (f0 :: df)); reflexivity.
      * intros cid.
        destruct (find (fun f => Z.eqb (fin_company_id f) cid) (f0 :: df)) eqn:F;
          [|lra].
        apply find_some in F. apply P. tauto.
  - exists (fun _ => 1). split; auto. intros; lra.
Qed.

(** *** Volatility *)

Lemma dropna_fin (xs : list R) : dropna (map Fin xs) = xs.
Proof. induction xs; simpl; congruence. Qed.

Lemma std_fin (xs : list R) :
  (2 <= List.length xs)%nat -> exists s, std (map Fin xs) = Fin s /\ 0 <= s.
Proof.
  intros L. unfold std. rewrite dropna_fin.
  destruct (List.length xs <? 2)%nat eqn:E; [apply Nat.ltb_lt in E; lia|].
  eexists. split; [reflexivity | apply sqrt_pos].
Qed.

Lemma pct_from_length (prev : R) (ps : list R) :
  prev <> 0 -> (forall p, In p ps -> p <> 0) ->
  List.length (dropna (pct_from (Fin prev) (map Fin ps))) = List.length ps.
Proof.
  revert prev. induction ps as [|p ps IH]; simpl; intros prev Hp H; auto.
  apply Reqb_false in Hp. rewrite Hp. simpl. f_equal. apply IH; auto.
Qed.

Lemma pct_change_length (ps : list R) :
  (forall p, In p ps -> p <> 0) ->
  List.length (dropna (pct_change (map Fin ps))) = (List.length ps - 1)%nat.
Proof.
  destruct ps as [|p ps]; simpl; intros H; auto.
  rewrite pct_from_length; auto. lia.
Qed.

Lemma volatility_of_defined df lookback cid :
  let ps := tail lookback (closes_of df cid) in
  (List.length ps < 2)%nat
  \/ ((3 <= List.length ps)%nat /\ forall p, In p ps -> p <> 0) ->
  exists v, volatility_of df lookback cid = Fin v /\ 0 <= v.
Proof.
  intros ps H. unfold volatility_of. fold ps.
  destruct (List.length ps <? 2)%nat eqn:E.
  - exists 0.2. split; auto. lra.
  - apply Nat.ltb_ge in E. destruct H as [H|[H3 Hnz]]; [lia|].
    destruct (@std_fin (dropna (pct_change (map Fin ps)))) as [s [Hs Hpos]].
    + rewrite pct_change_length; auto. lia.
    + rewrite Hs. simpl. eexists. split; [reflexivity|].
      apply Rmult_le_pos; auto. apply sqrt_pos.
Qed.

Lemma get_volatility_defined db ids year lookback :
  NoDup ids -> volatilities_usable db ids year lookback ->
  exists g, get_volatility db ids year lookback = map (fun cid => (cid, Fin (g cid))) ids
            /\ forall cid, In cid ids -> 0 <= g cid.
Proof.
  intros N U. unfold get_volatility.
  destruct (vol_frame db ids year lookback) as [|p0 df] eqn:D.
  - exists (fun _ => 1). split; auto. intros; lra.
  - rewrite dict_of_items_fun_nodup by auto.
    exists (fun cid => to_R (volatility_of (p0 :: df) lookback cid)). split.
    + apply map_ext_in. intros cid Hin.
      destruct (@volatility_of_defined (p0 :: df) lookback cid) as [v [Hv _]].
      { rewrite <- D. now apply U. }
      now rewrite Hv.
    + intros cid Hin.
      destruct (@volatility_of_defined (p0 :: df) lookback cid) as [v [Hv Hpos]].
      { rewrite <- D. now apply U. }
      now rewrite Hv.
Qed.

(** *** Momentum *)

Lemma clamp_fin (s : R) : clamp (Fin s) = Fin (Rmax 0 s).
Proof.
  unfold clamp. simpl. destruct (Rltb s 0) eqn:E.
  - apply Rltb_true in E. rewrite Rmax_left; auto. lra.
  - apply Rltb_false in E. rewrite Rmax_right; auto.
Qed.

Lemma momentum_of_defined df cid :
  let ps := closes_of df cid in
  (List.length ps < 2)%nat \/ hd 0 ps <> 0 ->
  exists s, momentum_of df cid = Fin s.
Proof.
  intros ps H. unfold momentum_of. fold ps.
  destruct (List.length ps <? 2)%nat eqn:E; [eauto|].
  apply Nat.ltb_ge in E. destruct H as [H|H]; [lia|].
  rewrite fdiv_fin by auto. simpl. eauto.
Qed.

Lemma mom_series_fun db ids year period :
  NoDup ids ->
  mom_series db ids year period
  = map (fun cid => (cid, clamp (momentum_of (mom_frame db ids year period) cid))) ids.
Proof.
  intros N. unfold mom_series. rewrite dict_of_items_fun_nodup by auto.
  now rewrite map_map.
Qed.





Lemma dict_get_listed (F : Z -> float) (ks : list Z) cid :
  NoDup ks -> In cid ks ->
  dict_get String.eqb (map (fun c => (str c, F c)) ks) (str cid) = Some (F cid).
Proof.
  intros N H. apply (in_dict_get _ String.eqb_eq).
  - rewrite map_map. simpl. now apply NoDup_map_str.
  - apply in_map_iff. eauto.
Qed.


(** *** All four schemes *)

Lemma equal_scheme_valid db ids year lb mp :
  ids <> [] -> NoDup ids ->
  exists w, compute_weights db ids year "equal" lb mp = Some w /\ valid_weights ids w.
Proof.
  intros Hne N. rewrite compute_weights_equal by auto. eexists. split; [reflexivity|].
  rewrite length_map, (dict_of_items_nodup _ String.eqb_eq).
  - rewrite map_map. now apply equal_shares_valid.
  - rewrite map_map. simpl. rewrite map_id. now apply NoDup_map_str.
Qed.

Lemma market_cap_scheme_valid db ids year lb mp :
  ids <> [] -> NoDup ids -> market_caps_usable db ids year ->
  exists w, compute_weights db ids year "market_cap" lb mp = Some w
            /\ valid_weights ids w.
Proof.
  intros Hne N U. rewrite compute_weights_market_cap by auto.
  destruct (get_market_caps_positive U) as [g [G Hpos]]. rewrite G.
  eexists. split; [reflexivity|].
  apply (@normalized_valid (fun cid => Fin (g cid)) g); auto.
  - intros cid _. apply Rlt_le, Hpos.
  - apply Rsum_pos; auto.
Qed.

Lemma inverse_vol_scheme_valid db ids year lb mp :
  ids <> [] -> NoDup ids -> volatilities_usable db ids year lb ->
  exists w, compute_weights db ids year "inverse_vol" lb mp = Some w
            /\ valid_weights ids w.
Proof.
  intros Hne N U. rewrite compute_weights_inverse_vol by auto.
  destruct (get_volatility_defined N U) as [g [G Hpos]]. rewrite G, map_map. simpl.
  eexists. split; [reflexivity|].
  assert (forall cid, In cid ids -> 0 < 1 / (g cid + 1e-8)) as Hinv.
  { intros cid H. specialize (Hpos cid H). apply Rdiv_lt_0_compat; lra. }
  apply (@normalized_valid
           (fun cid => fdiv (Fin 1) (fadd (Fin (g cid)) (Fin 1e-8)))
           (fun cid => 1 / (g cid + 1e-8))); auto.
  - intros cid H. specialize (Hpos cid H). simpl.
    replace (Reqb (g cid + 1e-8) 0) with false; auto.
    symmetry. apply Reqb_false. lra.
  - intros cid H. apply Rlt_le. auto.
  - apply Rsum_pos; auto.
Qed.

Lemma momentum_scheme_valid db ids year lb mp :
  ids <> [] -> NoDup ids -> momentum_usable db ids year mp ->
  exists w, compute_weights db ids year "momentum" lb mp = Some w
            /\ valid_weights ids w.
Proof.
  intros Hne N U. rewrite compute_weights_momentum, mom_series_fun by auto.
  set (df := mom_frame db ids year mp).
  set (score := fun cid => clamp (momentum_of df cid)).
  eexists. split; [reflexivity|].
  assert (forall cid, In cid ids -> score cid = Fin (to_R (score cid))
                                    /\ 0 <= to_R (score cid)) as HF.
  { intros cid H. destruct (@momentum_of_defined df cid (U cid H)) as [s Hs].
    unfold score. rewrite Hs, clamp_fin. simpl. split; auto. apply Rmax_l. }
  rewrite map_map. simpl.
  rewrite (@nansum_fin score (fun cid => to_R (score cid))) by (intros; now apply HF).
  destruct (Rltb 0 (Rsum (map (fun cid => to_R (score cid)) ids))) eqn:T.
  - apply Rltb_true in T.
    apply (@normalized_valid score (fun cid => to_R (score cid))); auto;
      intros; now apply HF.
  - rewrite stringify_fun by auto. now apply equal_shares_valid.
Qed.


(** ** The default volatility *)



(** ** Backtest returns and metrics *)

Lemma compute_metrics_nonempty rf returns :
  returns <> [] ->
  compute_metrics rf returns
  = let values := map snd returns in
    let mean_ret := fmul (mean values) (Fin 252) in
    let median_ret := fmul (median values) (Fin 252) in
    let vol := fmul (std values) (Fin (sqrt 252)) in
    {| mean_return := Some mean_ret; median_return := Some median_ret;
       volatility := Some vol;
       sharpe := if fgt vol (Fin 0)
                 then Some (fdiv (fsub mean_ret (Fin rf)) vol)
                 else None |}.
Proof. destruct returns; [congruence | reflexivity]. Qed.



(** With string keys no key is a column label: the valid ids are none and
    every daily portfolio return is the empty sum. *)
Lemma string_keys_never_align (weights : dict pyval float) (f : DataFrame) :
  (forall k, In k (map fst weights) -> exists s, k = PyStr s) ->
  valid_ids weights f = [].
Proof.
  intros H. unfold valid_ids. apply filter_none. intros k Hk.
  destruct (H k Hk) as [s E]. subst.
  induction (columns f) as [|c cs IH]; simpl; auto.
Qed.

Lemma string_keys_zero_returns db (weights : dict pyval float) year d r :
  (forall k, In k (map fst weights) -> exists s, k = PyStr s) ->
  In (d, r) (compute_portfolio_returns db weights year) -> r = Fin 0.
Proof.
  intros H. unfold compute_portfolio_returns.
  destruct (year_rows db weights year) as [|p df]; [intros []|].
  rewrite string_keys_never_align by auto. simpl.
  intros Hin. apply in_map_iff in Hin. destruct Hin as [dr [E _]].
  now inversion E.
Qed.




(** ** The properties on the small store *)

(** C6.  Two equally weighted companies under string keys, company 2 without
    a price in 2021: no key is found among the integer column labels, the
    list of valid ids is empty and the return of 5 January is 0, where the
    same weights under integer keys drop company 2, rescale the weight of
    company 1 to 1 and give the return of company 1, one tenth. *)
Theorem string_keys_lose_their_weights :
  valid_ids string_keyed
    (dropna_frame (pct_change_frame (ffill (pivot (year_rows sample_db string_keyed 2021)))))
  = []
  /\ compute_portfolio_returns sample_db string_keyed 2021 = [(737795%Z, Fin 0)]
  /\ valid_ids int_keyed
       (dropna_frame (pct_change_frame (ffill (pivot (year_rows sample_db int_keyed 2021)))))
     = [PyInt 1]
  /\ exists r, compute_portfolio_returns sample_db int_keyed 2021 = [(737795%Z, Fin r)]
               /\ r = 0.1.
Proof.
  split; [|split; [|split]].
  - reflexivity.
  - evaluate. reflexivity.
  - reflexivity.
  - eexists. split; [evaluate; reflexivity | lra].
Qed.







Lemma unrecognised_sign_is_skipped_witness :
  ~ recognised (f_sign odd_clause)
  /\ eligible_company_ids sample_db ([roe_clause] ++ odd_clause :: []) 2021
     = eligible_company_ids sample_db ([roe_clause] ++ []) 2021.
Proof.
  assert (~ recognised (f_sign odd_clause)) as H
    by (intros [E|[E|[E|E]]]; discriminate).
  split; [exact H|].
  exact (proj1 (proj2 (@unrecognised_sign_is_skipped sample_db 2021 7 odd_clause
                         [roe_clause] [] H))).
Defined.


(** ** The scenarios of the specification *)

(** Scenario A: [ROE > 15] for 2021 selects company 1 alone; its equal
    weight is 1. *)
Example scenario_A :
  eligible_company_ids sample_db [roe_clause] 2021 = [1%Z]
  /\ top_company_ids sample_db [roe_clause] 2021 = [1%Z]
  /\ exists a, compute_weights sample_db [1%Z] 2021 "equal" 252 252
               = Some [("1"%string, Fin a)] /\ a = 1.
Proof.
  split; [evaluate; reflexivity|]. split; [evaluate; reflexivity|].
  eexists. split; [reflexivity | simpl; lra].
Qed.

(** Scenario B: market caps 300 and 100 give the weights 0.75 and 0.25. *)
Example scenario_B :
  exists a b,
    compute_weights sample_db [1; 2]%Z 2021 "market_cap" 252 252
    = Some [("1"%string, Fin a); ("2"%string, Fin b)]
    /\ a = 0.75 /\ b = 0.25.
Proof. do 2 eexists. split; [evaluate; reflexivity | lra]. Qed.

(** Scenario D: trailing returns +0.30, -0.10 and 0.00 give the weights 1,
    0 and 0. *)
Example scenario_D :
  exists a b c,
    compute_weights momentum_db [1; 2; 3]%Z 2021 "momentum" 252 252
    = Some [("1"%string, Fin a); ("2"%string, Fin b); ("3"%string, Fin c)]
    /\ a = 1 /\ b = 0 /\ c = 0.
Proof. do 3 eexists. split; [evaluate; reflexivity | lra]. Qed.

(** Without any close in the window every momentum score is 0 and the
    weights are equal. *)
Example momentum_fallback :
  compute_weights sample_db [1; 2]%Z 2021 "momentum" 252 252
  = Some [("1"%string, Fin (1 / INR 2)); ("2"%string, Fin (1 / INR 2))].
Proof. evaluate. reflexivity. Qed.

(** A company with exactly two closes in the volatility window has a single
    return, whose sample deviation is [nan]: so is its inverse-volatility
    weight. *)
Example two_closes_give_nan :
  compute_weights sample_db [1%Z] 2022 "inverse_vol" 252 252
  = Some [("1"%string, NaN)].
Proof. evaluate. reflexivity. Qed.

(** A market-cap fact of each of two periods ending in 2020 makes [reindex]
    raise. *)
Example two_facts_raise :
  compute_weights
    {| companies := [1%Z];
       metrics := [ {| metric_id := 2; metric_name := "market_cap" |} ];
       financials :=
         [ {| fin_company_id := 1; fin_metric_id := 2; period_label := "FY2020";
              fin_value := 300 |};
           {| fin_company_id := 1; fin_metric_id := 2; period_label := "Q4FY2020";
              fin_value := 310 |} ];
       prices := [];
       yearly_portfolios := [] |}
    [1%Z] 2021 "market_cap" 252 252
  = None.
Proof. reflexivity. Qed.

(** With the two closes of company 1 in the window, company 2, which has
    none, is assigned 0.2. *)
Example default_volatility_of_company_2 :
  vol_frame sample_db [1; 2]%Z 2022 252 <> []
  /\ dict_get Z.eqb (get_volatility sample_db [1; 2]%Z 2022 252) 2%Z = Some (Fin 0.2).
Proof. split; [discriminate | reflexivity]. Qed.

(** The metrics of the return series of the string-keyed weights: one
    return of 0, hence no sample deviation and no Sharpe ratio. *)
Example metrics_of_single_return :
  exists a b,
    compute_metrics 0.02 (compute_portfolio_returns sample_db string_keyed 2021)
    = {| mean_return := Some (Fin a); median_return := Some (Fin b);
         volatility := Some NaN; sharpe := None |}
    /\ a = 0 /\ b = 0.
Proof. do 2 eexists. split; [evaluate; reflexivity | simpl; lra]. Qed.

(** No price row of 2019: the four metrics are null. *)
Example metrics_without_price_rows :
  compute_metrics 0.02 (compute_portfolio_returns sample_db string_keyed 2019)
  = null_metrics.
Proof. reflexivity. Qed.

(** * Further properties *)

(** ** The eligible and the ranked list *)

Lemma distinct_In (l : list Z) x : In x (distinct l) <-> In x l.
Proof.
  induction l as [|y l IH]; simpl; [tauto|].
  rewrite filter_In, IH. destruct (Z.eq_dec y x) as [E|N].
  - subst. tauto.
  - split.
    + intros [H|[H _]]; auto.
    + intros [H|H]; [contradiction|]. right. split; auto.
      apply negb_true_iff, Z.eqb_neq. congruence.
Qed.

Lemma distinct_NoDup (l : list Z) : NoDup (distinct l).
Proof.
  induction l as [|y l IH]; simpl; constructor.
  - rewrite filter_In. intros [_ H]. apply negb_true_iff, Z.eqb_neq in H. congruence.
  - now apply NoDup_filter.
Qed.

Lemma filter_condition_passes f cond :
  filter_condition f = Some cond ->
  recognised (f_sign f) /\ forall v, cond v = true <-> passes f v.
Proof.
  unfold filter_condition, recognised, passes.
  destruct (String.eqb (f_sign f) ">") eqn:E1.
  { apply String.eqb_eq in E1. intros H. inversion H; subst. split; auto.
    intros v. rewrite Rltb_true, E1. split; [auto|].
    intros [[_ H1]|[[H1 _]|[[H1 _]|[H1 _]]]]; auto; discriminate. }
  destruct (String.eqb (f_sign f) "<") eqn:E2.
  { apply String.eqb_eq in E2. intros H. inversion H; subst. split; auto.
    intros v. rewrite Rltb_true, E2. split; [auto|].
    intros [[H1 _]|[[_ H1]|[[H1 _]|[H1 _]]]]; auto; discriminate. }
  destruct (String.eqb (f_sign f) ">=") eqn:E3.
  { apply String.eqb_eq in E3. intros H. inversion H; subst. split; auto.
    intros v. rewrite Rleb_true, E3. split; [auto|].
    intros [[H1 _]|[[H1 _]|[[_ H1]|[H1 _]]]]; auto; discriminate. }
  destruct (String.eqb (f_sign f) "<=") eqn:E4.
  { apply String.eqb_eq in E4. intros H. inversion H; subst. split; auto 6.
    intros v. rewrite Rleb_true, E4. split; [auto 6|].
    intros [[H1 _]|[[H1 _]|[[H1 _]|[_ H1]]]]; auto; discriminate. }
  discriminate.
Qed.

Lemma filter_condition_recognised f :
  recognised (f_sign f) -> exists cond, filter_condition f = Some cond.
Proof.
  unfold filter_condition. intros [E|[E|[E|E]]]; rewrite E; simpl; eauto.
Qed.

Lemma joined_rows_qualifies db year f cond cid :
  filter_condition f = Some cond ->
  (joined_rows db year f cond cid <> [] <-> qualifies db year cid f).
Proof.
  intros C. destruct (filter_condition_passes _ C) as [_ P]. split.
  - intros H. destruct (joined_rows db year f cond cid) as [|[fin m] l] eqn:J;
      [congruence|].
    assert (In (fin, m) (joined_rows db year f cond cid)) as Hin
      by (rewrite J; now left).
    unfold joined_rows in Hin. apply filter_In in Hin. destruct Hin as [Hp Hc].
    apply in_prod_iff in Hp. simpl in Hc.
    apply andb_true_iff in Hc. destruct Hc as [Hj Hv].
    unfold join_condition, lagged in Hj.
    repeat (apply andb_true_iff in Hj; destruct Hj as [Hj ?]).
    apply Z.eqb_eq in Hj. exists fin, m. repeat split; try tauto.
    + now symmetry.
    + now apply Z.eqb_eq.
    + now apply String.eqb_eq.
    + now apply P.
  - intros [fin [m [Hf [Hm [Hc [Hi [Hn [Hl Hp]]]]]]]] E.
    assert (In (fin, m) (joined_rows db year f cond cid)) as Hin.
    { unfold joined_rows. apply filter_In. split; [now apply in_prod|]. simpl.
      unfold join_condition, lagged. rewrite Hl, Hi, Hn, <- Hc.
      rewrite !Z.eqb_refl, String.eqb_refl. simpl. now apply P. }
    rewrite E in Hin. destruct Hin.
Qed.

Lemma apply_filter_In db year q f cid :
  In cid (apply_filter db year q f)
  <-> In cid q /\ (recognised (f_sign f) -> qualifies db year cid f).
Proof.
  unfold apply_filter. destruct (filter_condition f) as [cond|] eqn:C.
  - rewrite in_flat_map. split.
    + intros [c [Hc H]]. apply in_map_iff in H. destruct H as [x [E Hx]]. subst c.
      split; auto. intros _. apply (@joined_rows_qualifies db year f cond cid C).
      intros E. rewrite E in Hx. destruct Hx.
    + intros [Hq H]. exists cid. split; auto.
      destruct (filter_condition_passes _ C) as [R _].
      apply (@joined_rows_qualifies db year f cond cid C) in H; auto.
      destruct (joined_rows db year f cond cid) as [|x l]; [congruence|]. now left.
  - split; [|tauto]. intros H. split; auto. intros R.
    destruct (filter_condition_recognised _ R) as [c E]. congruence.
Qed.

Lemma fold_apply_filter_In db year fs q cid :
  In cid (fold_left (apply_filter db year) fs q)
  <-> In cid q
      /\ forall f, In f fs -> recognised (f_sign f) -> qualifies db year cid f.
Proof.
  revert q. induction fs as [|f fs IH]; intros q; simpl.
  - split; [intros H; split; auto; intros f [] | tauto].
  - rewrite IH, apply_filter_In. split.
    + intros [[Hq Hf] H]. split; auto. intros g [E|Hg]; [subst; auto | auto].
    + intros [Hq H]. split; [split|]; auto.
Qed.



Lemma NoDup_firstn (A : Type) (n : nat) (l : list A) : NoDup l -> NoDup (firstn n l).
Proof.
  intros N. rewrite <- (firstn_skipn n l) in N. now apply NoDup_app_remove_r in N.
Qed.

Lemma In_firstn (A : Type) (n : nat) (l : list A) x : In x (firstn n l) -> In x l.
Proof.
  intros H. rewrite <- (firstn_skipn n l). apply in_or_app. now left.
Qed.

(** X2.  The ranked list holds at most twenty companies, none twice, all of
    them eligible; the eligible list holds no company twice and only
    companies of the store. *)
Theorem top_is_a_selection_of_eligible db filters year :
  (List.length (top_company_ids db filters year) <= 20)%nat
  /\ NoDup (top_company_ids db filters year)
  /\ NoDup (eligible_company_ids db filters year)
  /\ (forall cid, In cid (top_company_ids db filters year) ->
                  In cid (eligible_company_ids db filters year))
  /\ (forall cid, In cid (eligible_company_ids db filters year) ->
                  In cid (companies db)).
Proof.
  assert (NoDup (eligible_company_ids db filters year)) as N
    by apply distinct_NoDup.
  unfold top_company_ids. repeat split; auto.
  - rewrite length_firstn. lia.
  - apply NoDup_firstn. eapply Permutation_NoDup; [apply sort_by_perm | exact N].
  - intros cid H. apply In_firstn in H.
    eapply Permutation_in; [apply Permutation_sym, sort_by_perm | exact H].
  - intros cid H. unfold eligible_company_ids in H.
    rewrite distinct_In, fold_apply_filter_In in H. tauto.
Qed.


Lemma sort_desc_constant (key : Z -> R) (l : list Z) :
  (forall a b, In a l -> In b l -> key a = key b) -> sort_desc key l = l.
Proof.
  unfold sort_desc. induction l as [|x l IH]; simpl; intros H; auto.
  rewrite IH by (intros; apply H; now right).
  destruct l as [|y l]; simpl; auto.
  replace (Rleb (key y) (key x)) with true; auto.
  symmetry. apply Rleb_true. rewrite (H y x); [lra | right; now left | now left].
Qed.

Lemma sort_key_without_metric db ids year cid :
  find (fun m => String.eqb (metric_name m) "market_cap") (metrics db) = None ->
  sort_key (get_market_cap_for_sorting db ids year) cid = 0.
Proof.
  intros H. unfold sort_key.
  destruct (dict_get Z.eqb (get_market_cap_for_sorting db ids year) cid) as [v|] eqn:G;
    auto.
  apply market_cap_for_sorting_entry in G.
  destruct G as [[_ G]|[m [f [G _]]]]; [auto | congruence].
Qed.


(** X4.  When no metric named [market_cap] is catalogued every key is 0 and
    the ranked list is the first twenty eligible companies in the order of
    the eligible list. *)
Theorem ranking_without_market_cap_metric db filters year :
  find (fun m => String.eqb (metric_name m) "market_cap") (metrics db) = None ->
  top_company_ids db filters year
  = firstn 20 (eligible_company_ids db filters year).
Proof.
  intros H. unfold top_company_ids. f_equal. apply sort_desc_constant.
  intros a b _ _. now rewrite !sort_key_without_metric.
Qed.

Lemma ranking_without_market_cap_metric_witness :
  find (fun m => String.eqb (metric_name m) "market_cap") (metrics momentum_db) = None
  /\ top_company_ids momentum_db [odd_clause] 2021
     = firstn 20 (eligible_company_ids momentum_db [odd_clause] 2021).
Proof.
  assert (find (fun m => String.eqb (metric_name m) "market_cap") (metrics momentum_db)
          = None) as H by reflexivity.
  split; [exact H|]. exact (@ranking_without_market_cap_metric momentum_db _ 2021 H).
Defined.

(** ** The write of [generate_portfolio] *)


















(** ** The generation run *)



















(** ** The weighting schemes *)

Lemma has_dup_false (l : list Z) : has_dup l = false -> NoDup l.
Proof.
  unfold has_dup. intros H. apply negb_false_iff, Nat.eqb_eq in H.
  apply (NoDup_incl_NoDup (distinct_NoDup l)); [lia|].
  intros x Hx. now apply distinct_In.
Qed.

Lemma get_market_caps_raises_iff db ids year :
  get_market_caps db ids year = None <-> repeated_market_cap_fact db ids year.
Proof.
  unfold get_market_caps, repeated_market_cap_fact.
  destruct (find (fun m => String.eqb (metric_name m) "market_cap") (metrics db))
    as [m|] eqn:M.
  - destruct (market_cap_rows db m ids year) as [|f df] eqn:E.
    + split; [discriminate|]. intros [m' [Hm N]]. inversion Hm; subst.
      rewrite E in N. exfalso. apply N. constructor.
    + destruct (has_dup (map fin_company_id (f :: df))) eqn:D.
      * split; auto. intros _. exists m. split; auto. rewrite E. intros N.
        apply has_dup_nodup in N. congruence.
      * split; [discriminate|]. intros [m' [Hm N]]. inversion Hm; subst.
        rewrite E in N. exfalso. apply N. now apply has_dup_false.
  - split; [discriminate|]. intros [m' [Hm _]]. discriminate.
Qed.



Lemma normalized_lookup (F : Z -> float) (g : Z -> R) (ids : list Z) cid :
  NoDup ids ->
  (forall c, In c ids -> F c = Fin (g c)) ->
  Rsum (map g ids) <> 0 ->
  In cid ids ->
  dict_get String.eqb (stringify (normalize (map (fun c => (c, F c)) ids))) (str cid)
  = Some (Fin (g cid / Rsum (map g ids))).
Proof.
  intros N HF Hs Hin. rewrite normalize_fun, stringify_fun by auto.
  rewrite (nansum_fin F g) by auto.
  rewrite (@dict_get_listed (fun c => fdiv (F c) (Fin (Rsum (map g ids)))) ids cid N Hin).
  rewrite (HF cid Hin). f_equal. now apply fdiv_fin.
Qed.








Lemma market_cap_of_capitalisation db ids year cid :
  In cid ids -> capitalisation db year cid (market_cap_of db ids year cid).
Proof.
  intros Hin. unfold capitalisation, market_cap_of, market_cap_read.
  destruct (find (fun m => String.eqb (metric_name m) "market_cap") (metrics db))
    as [m|] eqn:M.
  - destruct (find (fun f => Z.eqb (fin_company_id f) cid)
                   (market_cap_rows db m ids year)) as [f|] eqn:F.
    + left. apply find_some in F. destruct F as [Hf E]. apply Z.eqb_eq in E.
      unfold market_cap_rows in Hf. apply filter_In in Hf.
      destruct Hf as [Hf C]. apply andb_true_iff in C. destruct C as [C C3].
      apply andb_true_iff in C. destruct C as [C1 C2]. apply Z.eqb_eq in C3.
      exists m, f. repeat split; auto.
    + right. split; auto. intros v' [m' [f [Hm [Hf [E1 [E2 [E3 _]]]]]]].
      inversion Hm; subst m'.
      assert (In f (market_cap_rows db m ids year)) as Hrow.
      { unfold market_cap_rows. apply filter_In. split; auto.
        rewrite E2, Z.eqb_refl. unfold lagged. rewrite E3.
        rewrite andb_true_r, andb_true_r. apply existsb_exists.
        exists cid. split; auto. apply Z.eqb_eq. auto. }
      pose proof (find_none _ _ F f Hrow) as X. simpl in X.
      rewrite E1, Z.eqb_refl in X. discriminate.
  - right. split; auto. intros v' [m' [f [Hm _]]]. discriminate.
Qed.

Lemma get_market_caps_of db ids year :
  ~ repeated_market_cap_fact db ids year ->
  get_market_caps db ids year
  = Some (map (fun cid => (cid, Fin (market_cap_of db ids year cid))) ids).
Proof.
  intros U. pose proof (get_market_caps_raises_iff db ids year) as R.
  unfold get_market_caps, market_cap_of in *.
  destruct (find (fun m => String.eqb (metric_name m) "market_cap") (metrics db))
    as [m|] eqn:M; auto.
  destruct (market_cap_rows db m ids year) as [|f0 df] eqn:D; auto.
  destruct (has_dup (map fin_company_id (f0 :: df))).
  - exfalso. apply U. now apply R.
  - f_equal. apply map_ext. intros cid.
    destruct (find (fun f => Z.eqb (fin_company_id f) cid) (f0 :: df)); reflexivity.
Qed.

(** X12.  Under the market-cap scheme, for a non-empty list of pairwise
    different companies whose lagged market-cap facts are positive and one per
    company, the weight of each company is its capitalisation over the sum of
    the capitalisations of the list, where the capitalisation of a company is
    the value of its lagged market-cap fact, and 1 when it has none. *)
Theorem market_cap_weights_are_proportional db ids year lb mp :
  NoDup ids ->
  ids <> [] ->
  market_caps_usable db ids year ->
  exists (cap : Z -> R) w,
    (forall cid, In cid ids -> capitalisation db year cid (cap cid) /\ 0 < cap cid)
    /\ compute_weights db ids year "market_cap" lb mp = Some w
    /\ forall cid, In cid ids ->
         dict_get String.eqb w (str cid)
         = Some (Fin (cap cid / Rsum (map cap ids))).
Proof.
  intros N Hne U.
  assert (~ repeated_market_cap_fact db ids year) as NR.
  { intros [m [Hm R]]. apply R. now apply (U m Hm). }
  assert (forall cid, 0 < market_cap_of db ids year cid) as P.
  { intros cid. unfold market_cap_of.
    destruct (find (fun m => String.eqb (metric_name m) "market_cap") (metrics db))
      as [m|] eqn:M; [|lra].
    destruct (find (fun f => Z.eqb (fin_company_id f) cid)
                   (market_cap_rows db m ids year)) as [f|] eqn:F; [|lra].
    apply find_some in F. apply (U m M). tauto. }
  exists (market_cap_of db ids year). eexists. split; [|split].
  - intros cid Hin. split; [now apply market_cap_of_capitalisation | apply P].
  - rewrite compute_weights_market_cap by auto.
    rewrite (get_market_caps_of NR). reflexivity.
  - intros cid Hin.
    apply (@normalized_lookup (fun c => Fin (market_cap_of db ids year c))
                              (market_cap_of db ids year)); auto.
    apply Rgt_not_eq. apply Rsum_pos; auto.
Qed.

Lemma market_cap_weights_are_proportional_witness :
  exists (cap : Z -> R) w,
    (forall cid, In cid [1; 2]%Z ->
       capitalisation sample_db 2021 cid (cap cid) /\ 0 < cap cid)
    /\ compute_weights sample_db [1; 2]%Z 2021 "market_cap" 252 252 = Some w
    /\ forall cid, In cid [1; 2]%Z ->
         dict_get String.eqb w (str cid)
         = Some (Fin (cap cid / Rsum (map cap [1; 2]%Z))).
Proof.
  apply market_cap_weights_are_proportional.
  - constructor; [intros [E|[]]; discriminate|]. constructor; [intros []|constructor].
  - discriminate.
  - intros m Hm. inversion Hm; subst. split.
    + simpl. constructor; [intros [E|[]]; discriminate|].
      constructor; [intros []|constructor].
    + intros f Hf. simpl in Hf. destruct Hf as [E|[E|[]]]; subst f; simpl; lra.
Defined.



(** *** No later data *)

Lemma market_cap_rows_past year db db' m ids :
  same_past year db db' ->
  market_cap_rows db' m ids year = market_cap_rows db m ids year.
Proof.
  intros [_ [F _]]. unfold market_cap_rows.
  rewrite <- (@filter_implied _ _ (lagged year) (financials db')),
          <- (@filter_implied _ _ (lagged year) (financials db)).
  - now rewrite F.
  - intros x H. apply andb_true_iff in H. destruct H as [H _].
    now apply andb_true_iff in H.
  - intros x H. apply andb_true_iff in H. destruct H as [H _].
    now apply andb_true_iff in H.
Qed.

Lemma price_rows_past year db db' ids start_date :
  same_past year db db' ->
  price_rows db' ids start_date (jan1 year - 1)
  = price_rows db ids start_date (jan1 year - 1).
Proof.
  intros [_ [_ P]]. unfold price_rows.
  rewrite <- (@filter_implied _ _ (known_before year) (prices db')),
          <- (@filter_implied _ _ (known_before year) (prices db)).
  - now rewrite P.
  - intros x H. apply andb_true_iff in H. destruct H as [_ H].
    unfold known_before. apply Z.leb_le in H. apply Z.ltb_lt. lia.
  - intros x H. apply andb_true_iff in H. destruct H as [_ H].
    unfold known_before. apply Z.leb_le in H. apply Z.ltb_lt. lia.
Qed.

Lemma compute_weights_past year db db' ids scheme lb mp :
  same_past year db db' ->
  compute_weights db' ids year scheme lb mp = compute_weights db ids year scheme lb mp.
Proof.
  intros S. unfold compute_weights.
  assert (get_market_caps db' ids year = get_market_caps db ids year) as E1.
  { unfold get_market_caps. destruct S as [M S']. rewrite M.
    destruct (find (fun m => String.eqb (metric_name m) "market_cap") (metrics db));
      auto.
    now rewrite (@market_cap_rows_past year db db' m ids (conj M S')). }
  assert (get_volatility db' ids year lb = get_volatility db ids year lb) as E2.
  { unfold get_volatility, vol_frame. now rewrite (price_rows_past _ _ S). }
  assert (mom_series db' ids year mp = mom_series db ids year mp) as E3.
  { unfold mom_series, mom_frame. now rewrite (price_rows_past _ _ S). }
  now rewrite E1, E2, E3.
Qed.

(** X14.  The weights of a year use no later data: on two stores that agree
    on the metric catalogue, on the facts labelled with the previous year and
    on the prices dated before 1 January of the year, [compute_weights] and
    [compute_all_weights] return the same, whatever the stores hold
    besides. *)
Theorem weights_use_no_later_data year db db' ids scheme schemes lb mp :
  same_past year db db' ->
  compute_weights db' ids year scheme lb mp = compute_weights db ids year scheme lb mp
  /\ compute_all_weights db' ids year schemes lb mp
     = compute_all_weights db ids year schemes lb mp.
Proof.
  intros S. split; [now apply compute_weights_past|].
  unfold compute_all_weights.
  assert (forall acc,
            fold_left (add_scheme db' ids year lb mp) schemes acc
            = fold_left (add_scheme db ids year lb mp) schemes acc) as A.
  { induction schemes as [|s ss IH]; intros acc; simpl; auto.
    rewrite IH. f_equal. unfold add_scheme.
    now rewrite (compute_weights_past ids s lb mp S). }
  apply A.
Qed.

Lemma weights_use_no_later_data_witness :
  same_past 2021 sample_db sample_db_without_prices
  /\ compute_weights sample_db_without_prices [1; 2]%Z 2021 "momentum" 252 252
     = compute_weights sample_db [1; 2]%Z 2021 "momentum" 252 252.
Proof.
  assert (same_past 2021 sample_db sample_db_without_prices) as S
    by (repeat split).
  split; [exact S|].
  exact (proj1 (@weights_use_no_later_data 2021 _ _ [1; 2]%Z "momentum"%string
                  [] 252 252 S)).
Defined.

(** *** All schemes *)

Lemma add_scheme_stopped db ids year lb mp schemes :
  fold_left (add_scheme db ids year lb mp) schemes None = None.
Proof. induction schemes as [|s ss IH]; simpl; auto. Qed.

Lemma compute_all_weights_fold db ids year lb mp schemes :
  forall acc,
    (forall s, In s schemes -> compute_weights db ids year s lb mp <> None) ->
    fold_left (add_scheme db ids year lb mp) schemes (Some acc)
    = Some (fold_left (fun d kv => dict_set String.eqb d (fst kv) (snd kv))
              (map (fun s => (s, match compute_weights db ids year s lb mp with
                                 | Some w => w
                                 | None => []
                                 end)) schemes)
              acc).
Proof.
  induction schemes as [|s ss IH]; intros acc H; simpl; auto.
  destruct (compute_weights db ids year s lb mp) as [w|] eqn:C.
  - apply IH. intros s' Hs'. apply H. now right.
  - exfalso. apply (H s); simpl; auto.
Qed.

Lemma compute_all_weights_raises db ids year lb mp schemes :
  forall acc,
    fold_left (add_scheme db ids year lb mp) schemes (Some acc) = None
    <-> exists s, In s schemes /\ compute_weights db ids year s lb mp = None.
Proof.
  induction schemes as [|s ss IH]; intros acc; simpl.
  - split; [discriminate|]. intros [s [[] _]].
  - destruct (compute_weights db ids year s lb mp) as [w|] eqn:C.
    + rewrite IH. split.
      * intros [s' [H1 H2]]. exists s'. auto.
      * intros [s' [[E|H1] H2]]; [subst; congruence|]. exists s'. auto.
    + rewrite add_scheme_stopped. split; auto. intros _. exists s. auto.
Qed.

(** X15.  [compute_all_weights] raises exactly when [compute_weights] raises
    for one of the schemes listed; when it returns, the mapping has the
    listed schemes as its keys, each once, and holds under each scheme what
    [compute_weights] returns for it. *)
Theorem compute_all_weights_collects db ids year schemes lb mp :
  (compute_all_weights db ids year schemes lb mp = None
   <-> exists s, In s schemes /\ compute_weights db ids year s lb mp = None)
  /\ forall d,
       compute_all_weights db ids year schemes lb mp = Some d ->
       NoDup (map fst d)
       /\ (forall s, In s (map fst d) <-> In s schemes)
       /\ (forall s, In s schemes ->
             exists w, compute_weights db ids year s lb mp = Some w
                       /\ dict_get String.eqb d s = Some w).
Proof.
  unfold compute_all_weights. split; [apply compute_all_weights_raises|].
  intros d H.
  assert (forall s, In s schemes -> compute_weights db ids year s lb mp <> None) as A.
  { intros s Hs C.
    assert (fold_left (add_scheme db ids year lb mp) schemes (Some []) = None) as X
      by (apply compute_all_weights_raises; eauto).
    congruence. }
  rewrite (compute_all_weights_fold _ _ _ _ _ _ _ A) in H.
  set (w := fun s => match compute_weights db ids year s lb mp with
                     | Some w => w
                     | None => []
                     end) in *.
  change (fold_left (fun d kv => dict_set String.eqb d (fst kv) (snd kv))
            (map (fun s => (s, w s)) schemes) [])
    with (dict_of_items String.eqb (map (fun s => (s, w s)) schemes)) in H.
  inversion H as [E]. clear H E d.
  split; [|split].
  - apply (dict_of_items_keys_nodup _ String.eqb_eq).
  - intros s.
    pose proof (dict_of_items_keys _ String.eqb_eq
                  (map (fun s => (s, w s)) schemes) s) as X.
    rewrite map_map in X. simpl in X. rewrite map_id in X. exact X.
  - intros s Hs. exists (w s). split.
    + unfold w. specialize (A s Hs).
      destruct (compute_weights db ids year s lb mp); congruence.
    + now apply (dict_of_items_fun _ String.eqb_eq w schemes s).
Qed.

(** X16.  With the default schemes, for a year whose two windows lie within
    the calendar and a non-empty list of pairwise different companies whose
    data is usable for each scheme, [compute_all_weights]
    returns four weightings under the keys [equal], [market_cap],
    [inverse_vol], [momentum] in this order, each a valid weighting of the
    list: non-negative weights of sum 1, one per company. *)
Theorem default_schemes_give_four_valid_weightings db ids year lb mp :
  NoDup ids ->
  ids <> [] ->
  window_in_calendar year (Z.quot (3 * lb) 2) ->
  window_in_calendar year mp ->
  market_caps_usable db ids year ->
  volatilities_usable db ids year lb ->
  momentum_usable db ids year mp ->
  exists we wm wi wo,
    compute_all_weights db ids year default_schemes lb mp
    = Some [("equal"%string, we); ("market_cap"%string, wm);
            ("inverse_vol"%string, wi); ("momentum"%string, wo)]
    /\ valid_weights ids we /\ valid_weights ids wm
    /\ valid_weights ids wi /\ valid_weights ids wo.
Proof.
  intros N Hne _ _ U1 U2 U3.
  destruct (@equal_scheme_valid db ids year lb mp Hne N) as [we [E1 V1]].
  destruct (@market_cap_scheme_valid db ids year lb mp Hne N U1) as [wm [E2 V2]].
  destruct (@inverse_vol_scheme_valid db ids year lb mp Hne N U2) as [wi [E3 V3]].
  destruct (@momentum_scheme_valid db ids year lb mp Hne N U3) as [wo [E4 V4]].
  exists we, wm, wi, wo. split; [|auto].
  unfold compute_all_weights, default_schemes. simpl.
  rewrite E1. simpl. rewrite E2. simpl. rewrite E3. simpl. rewrite E4. reflexivity.
Qed.

Lemma default_schemes_give_four_valid_weightings_witness :
  exists we wm wi wo,
    compute_all_weights sample_db [2; 3]%Z 2021 default_schemes 252 252
    = Some [("equal"%string, we); ("market_cap"%string, wm);
            ("inverse_vol"%string, wi); ("momentum"%string, wo)]
    /\ valid_weights [2; 3]%Z we /\ valid_weights [2; 3]%Z wm
    /\ valid_weights [2; 3]%Z wi /\ valid_weights [2; 3]%Z wo.
Proof.
  apply default_schemes_give_four_valid_weightings.
  - constructor; [intros [E|[]]; discriminate|]. constructor; [intros []|constructor].
  - discriminate.
  - repeat split; vm_compute; discriminate.
  - repeat split; vm_compute; discriminate.
  - intros m Hm. inversion Hm; subst. split.
    + simpl. constructor; [intros []|constructor].
    + intros f Hf. simpl in Hf. destruct Hf as [E|[]]; subst f; simpl; lra.
  - intros cid _. left. simpl. lia.
  - intros cid _. left. simpl. lia.
Defined.

(** ** The weighting pass *)

Lemma digits_all_decimal (u : Decimal.uint) :
  all_decimal (NilEmpty.string_of_uint u) = true.
Proof. induction u; simpl; auto. Qed.

Lemma decimal_not_space a : is_decimal a = true -> is_space a = false.
Proof.
  unfold is_decimal, is_space. intros H. apply andb_true_iff in H.
  destruct H as [H1 H2]. apply Nat.leb_le in H1, H2.
  assert ((nat_of_ascii a <=? 13)%nat = false) as A by (apply Nat.leb_gt; lia).
  assert ((nat_of_ascii a <=? 32)%nat = false) as B by (apply Nat.leb_gt; lia).
  now rewrite A, B, !andb_false_r.
Qed.

Lemma decimal_not_sign a :
  is_decimal a = true -> Ascii.eqb a "-" = false /\ Ascii.eqb a "+" = false.
Proof.
  intros H. split; apply Ascii.eqb_neq; intros E; subst a; discriminate.
Qed.

Lemma rstrip_digits s : all_decimal s = true -> rstrip s = s.
Proof.
  induction s as [|a s IH]; simpl; auto. intros H. apply andb_true_iff in H.
  destruct H as [Ha Hs]. rewrite (IH Hs).
  destruct s; auto. now rewrite (@decimal_not_space _ Ha).
Qed.

Lemma digits_of_digits s :
  all_decimal s = true ->
  forall b, s <> EmptyString \/ b = true -> digits_of b s = Some s.
Proof.
  induction s as [|a s IH]; simpl; intros H b Hb.
  - destruct Hb as [Hb|Hb]; [congruence | now subst].
  - apply andb_true_iff in H. destruct H as [Ha Hs].
    rewrite Ha, (IH Hs true); auto.
Qed.

Lemma unsigned_int_digits (u : Decimal.uint) :
  u <> Decimal.Nil ->
  NilEmpty.string_of_uint u <> EmptyString
  /\ unsigned_int (NilEmpty.string_of_uint u) = Some (Z.of_uint u).
Proof.
  intros Hu.
  assert (NilEmpty.string_of_uint u <> EmptyString) as Hne
    by (destruct u; simpl; congruence).
  split; auto. unfold unsigned_int.
  rewrite (@digits_of_digits _ (digits_all_decimal u) false) by auto.
  pose proof (NilZero.usu u Hu) as E.
  replace (NilZero.string_of_uint u) with (NilEmpty.string_of_uint u) in E
    by (destruct u; simpl; congruence).
  now rewrite E.
Qed.

Lemma py_int_digits s :
  all_decimal s = true -> s <> EmptyString -> py_int s = unsigned_int s.
Proof.
  intros H Hne. unfold py_int. rewrite (@rstrip_digits _ H).
  destruct s as [|a s]; [congruence|]. simpl in H. apply andb_true_iff in H.
  destruct H as [Ha _]. simpl. rewrite (@decimal_not_space _ Ha).
  destruct (@decimal_not_sign _ Ha) as [A B]. now rewrite A, B.
Qed.

Lemma py_int_negative s :
  all_decimal s = true -> s <> EmptyString ->
  py_int (String "-" s) = option_map Z.opp (unsigned_int s).
Proof.
  intros H Hne. unfold py_int.
  assert (rstrip (String "-" s) = String "-" s) as R.
  { simpl. rewrite (@rstrip_digits _ H). destruct s; [congruence | reflexivity]. }
  rewrite R. reflexivity.
Qed.

Lemma py_int_str z : py_int (str z) = Some z.
Proof.
  unfold str. destruct z as [|p|p]; simpl.
  - reflexivity.
  - pose proof (DecimalPos.Unsigned.to_uint_nonnil p) as Hu.
    destruct (unsigned_int_digits Hu) as [Hne E].
    replace (NilZero.string_of_uint (Pos.to_uint p))
      with (NilEmpty.string_of_uint (Pos.to_uint p))
      by (destruct (Pos.to_uint p); simpl; congruence).
    rewrite py_int_digits, E; auto using digits_all_decimal.
    unfold Z.of_uint. now rewrite DecimalPos.Unsigned.of_to.
  - pose proof (DecimalPos.Unsigned.to_uint_nonnil p) as Hu.
    destruct (unsigned_int_digits Hu) as [Hne E].
    replace (NilZero.string_of_uint (Pos.to_uint p))
      with (NilEmpty.string_of_uint (Pos.to_uint p))
      by (destruct (Pos.to_uint p); simpl; congruence).
    rewrite py_int_negative, E; auto using digits_all_decimal.
    unfold Z.of_uint. now rewrite DecimalPos.Unsigned.of_to.
Qed.

Lemma company_ids_of_strs (ids : list Z) : company_ids_of (map str ids) = Some ids.
Proof.
  induction ids as [|i ids IH]; simpl; auto. now rewrite py_int_str, IH.
Qed.

(** X17.  [int] undoes [str] on every integer, so the pass reads back the
    list of company ids from the keys that [generate_portfolio] wrote: the
    keys of the placeholder of a list of pairwise different ids are their
    string forms in order, and converting them gives the list back. *)
Theorem placeholder_keys_give_back_the_ids (ids : list Z) :
  (forall z, py_int (str z) = Some z)
  /\ (NoDup ids ->
        weights_keys (Placeholder (portfolio_weights_placeholder ids)) = map str ids
        /\ company_ids_of
             (weights_keys (Placeholder (portfolio_weights_placeholder ids)))
           = Some ids).
Proof.
  split; [apply py_int_str|]. intros N.
  assert (weights_keys (Placeholder (portfolio_weights_placeholder ids)) = map str ids)
    as K.
  { unfold weights_keys, portfolio_weights_placeholder.
    rewrite (dict_of_items_nodup _ String.eqb_eq).
    - rewrite map_map. reflexivity.
    - rewrite map_map. simpl. now apply NoDup_map_str. }
  split; auto. rewrite K. apply company_ids_of_strs.
Qed.







(** *** A second pass *)

Lemma company_ids_of_bad (keys : list string) k :
  In k keys -> py_int k = None -> company_ids_of keys = None.
Proof.
  induction keys as [|k' keys IH]; simpl; intros Hin Hk; [destruct Hin|].
  destruct Hin as [E|Hin].
  - subst. now rewrite Hk.
  - destruct (py_int k'); auto. now rewrite (IH Hin Hk).
Qed.

Lemma compute_all_weights_keys db ids year schemes lb mp d :
  compute_all_weights db ids year schemes lb mp = Some d ->
  forall s, In s (map fst d) <-> In s schemes.
Proof.
  unfold compute_all_weights. intros H.
  assert (forall s, In s schemes -> compute_weights db ids year s lb mp <> None) as A.
  { intros s Hs C.
    assert (fold_left (add_scheme db ids year lb mp) schemes (Some []) = None) as X
      by (apply compute_all_weights_raises; eauto).
    congruence. }
  rewrite (compute_all_weights_fold _ _ _ _ _ _ _ A) in H.
  set (w := fun s => match compute_weights db ids year s lb mp with
                     | Some w => w
                     | None => []
                     end) in *.
  change (fold_left (fun d kv => dict_set String.eqb d (fst kv) (snd kv))
            (map (fun s => (s, w s)) schemes) [])
    with (dict_of_items String.eqb (map (fun s => (s, w s)) schemes)) in H.
  inversion H as [E]. clear H E d. intros s.
  pose proof (dict_of_items_keys _ String.eqb_eq
                (map (fun s => (s, w s)) schemes) s) as X.
  rewrite map_map in X. simpl in X. rewrite map_id in X. exact X.
Qed.

(** A portfolio the pass has weighted holds the scheme names as keys. *)
Lemma weigh_cases db yp yp' :
  weigh db yp = Some yp' ->
  key_of yp' = key_of yp
  /\ (yp' = yp
      \/ exists all, yp_weights yp' = Schemes all /\ In "equal"%string (map fst all)).
Proof.
  unfold weigh. destruct (weights_keys (yp_weights yp)) as [|k ks].
  - intros H. inversion H. auto.
  - destruct (company_ids_of (k :: ks)) as [[|c cs]|]; try discriminate.
    + intros H. inversion H. auto.
    + destruct (compute_all_weights db (c :: cs) (yp_year yp) default_schemes 252 252)
        as [all|] eqn:C; try discriminate.
      intros H. inversion H. split; [reflexivity|]. right. exists all. simpl.
      split; auto. apply (compute_all_weights_keys _ _ _ _ _ _ C). simpl. auto.
Qed.

Lemma weigh_scheme_keys db yp all :
  yp_weights yp = Schemes all -> In "equal"%string (map fst all) ->
  weigh db yp = None.
Proof.
  intros E Hin. unfold weigh. rewrite E. unfold weights_keys.
  destruct (map fst all) as [|k ks] eqn:K; [destruct Hin|].
  now rewrite (@company_ids_of_bad (k :: ks) "equal" Hin).
Qed.

Lemma weigh_all_none db yps yp :
  In yp yps -> weigh db yp = None -> weigh_all db yps = None.
Proof.
  induction yps as [|y yps IH]; simpl; intros Hin H; [destruct Hin|].
  destruct Hin as [E|Hin].
  - subst. now rewrite H.
  - destruct (weigh db y); auto. now rewrite (IH Hin H).
Qed.

Lemma weigh_all_cases db yps yps' :
  weigh_all db yps = Some yps' ->
  map key_of yps' = map key_of yps
  /\ (yps' = yps
      \/ exists yp', In yp' yps' /\ forall db2, weigh db2 yp' = None).
Proof.
  revert yps'. induction yps as [|y yps IH]; simpl; intros yps' H.
  - inversion H. auto.
  - destruct (weigh db y) as [y'|] eqn:W; try discriminate.
    destruct (weigh_all db yps) as [r|] eqn:R; try discriminate.
    inversion H; subst yps'. clear H.
    destruct (IH r eq_refl) as [K C]. destruct (weigh_cases _ _ W) as [Ky Cy].
    split; [simpl; congruence|].
    destruct C as [C|[yp' [Hin Hn]]].
    + destruct Cy as [Cy|[all [E Hin]]].
      * left. congruence.
      * right. exists y'. split; [now left|]. intros db2.
        now apply (weigh_scheme_keys db2 _ E).
    + right. exists yp'. split; [now right | exact Hn].
Qed.

Lemma set_same_portfolios db : set_yearly_portfolios db (yearly_portfolios db) = db.
Proof. destruct db; reflexivity. Qed.

(** X19.  The pass cannot be repeated: a run that returns and has changed the
    store leaves a store on which the next run raises, as the keys of a
    weighted portfolio are the scheme names and [int] rejects them.  A run
    that returns keeps the companies, metrics, facts and prices, and the keys
    of the portfolio records in their order. *)
Theorem weighting_pass_runs_once db db' :
  run_portfolio_weighting db = Some db' ->
  same_facts db db'
  /\ map key_of (yearly_portfolios db') = map key_of (yearly_portfolios db)
  /\ (db' = db \/ run_portfolio_weighting db' = None).
Proof.
  unfold run_portfolio_weighting.
  destruct (weigh_all db (yearly_portfolios db)) as [yps'|] eqn:W; try discriminate.
  intros H. inversion H; subst db'. clear H.
  destruct (weigh_all_cases _ _ W) as [K C].
  split; [repeat split|]. split; [exact K|].
  destruct C as [C|[yp' [Hin Hn]]].
  - left. rewrite C. apply set_same_portfolios.
  - right. simpl.
    now rewrite (@weigh_all_none (set_yearly_portfolios db yps') yps' yp' Hin (Hn _)).
Qed.

Lemma weighting_pass_runs_once_witness :
  exists db',
    run_portfolio_weighting generated_db = Some db'
    /\ run_portfolio_weighting db' = None.
Proof.
  assert (exists db', run_portfolio_weighting generated_db = Some db'
                      /\ db' <> generated_db) as [db' [R D]].
  { eexists. split; [evaluate; reflexivity|]. unfold generated_db. discriminate. }
  exists db'. split; [exact R|].
  destruct (@weighting_pass_runs_once generated_db db' R) as [_ [_ [E|N]]];
    [contradiction | exact N].
Defined.

(** ** The backtest run *)

Lemma scheme_items_none w :
  scheme_items w = None <-> exists d, w = Placeholder d /\ d <> [].
Proof.
  destruct w as [[|kv d]|d]; simpl.
  - split; [discriminate|]. intros [d [E N]]. inversion E; subst. congruence.
  - split; auto. intros _. exists (kv :: d). split; auto. discriminate.
  - split; [discriminate|]. intros [d' [E _]]. discriminate.
Qed.

Lemma scheme_items_keys w items :
  scheme_items w = Some items -> map fst items = weights_keys w.
Proof.
  destruct w as [[|kv d]|d]; simpl; intros H; inversion H; reflexivity.
Qed.

Lemma backtest_rows_raises rf db yps :
  backtest_rows rf db yps = None <-> exists yp, In yp yps /\ unweighted yp.
Proof.
  unfold unweighted. induction yps as [|yp yps IH]; simpl.
  - split; [discriminate|]. intros [yp [[] _]].
  - destruct (scheme_items (yp_weights yp)) as [items|] eqn:S.
    + destruct (backtest_rows rf db yps) as [rows|].
      * split; [discriminate|]. intros [y [[E|Hin] U]].
        -- subst y. apply scheme_items_none in U. congruence.
        -- assert (Some rows = None) as X by (apply IH; eauto). discriminate.
      * split; auto. intros _. destruct (proj1 IH eq_refl) as [y [Hin U]].
        exists y. auto.
    + split; auto. intros _. exists yp. split; auto.
      now apply scheme_items_none.
Qed.

Lemma backtest_rows_keys rf db yps rows :
  backtest_rows rf db yps = Some rows ->
  map row_key rows
  = flat_map (fun yp => map (fun s => (yp_rule_id yp, yp_year yp, s))
                            (weights_keys (yp_weights yp))) yps.
Proof.
  revert rows. induction yps as [|yp yps IH]; simpl; intros rows H.
  - inversion H. reflexivity.
  - destruct (scheme_items (yp_weights yp)) as [items|] eqn:S; try discriminate.
    destruct (backtest_rows rf db yps) as [rows'|]; try discriminate.
    inversion H; subst rows. clear H.
    rewrite map_app, (IH rows' eq_refl), map_map. f_equal.
    rewrite <- (scheme_items_keys _ S), map_map. reflexivity.
Qed.






(** *** Returns that are all zero *)

Lemma Rsum_zeros (zs : list R) : (forall x, In x zs -> x = 0) -> Rsum zs = 0.
Proof.
  induction zs as [|z zs IH]; simpl; intros H; auto.
  rewrite IH by auto. rewrite (H z) by auto. lra.
Qed.

Lemma nth_zeros (zs : list R) k : (forall x, In x zs -> x = 0) -> nth k zs 0 = 0.
Proof.
  intros H. destruct (nth_in_or_default k zs 0) as [Hin|E]; auto.
Qed.

Lemma mean_zeros (zs : list R) :
  zs <> [] -> (forall x, In x zs -> x = 0) -> mean (map Fin zs) = Fin 0.
Proof.
  intros Hne H. unfold mean. rewrite dropna_fin.
  destruct zs as [|z zs]; [congruence|]. rewrite (Rsum_zeros _ H).
  f_equal. unfold Rdiv. apply Rmult_0_l.
Qed.

Lemma median_zeros (zs : list R) :
  zs <> [] -> (forall x, In x zs -> x = 0) -> median (map Fin zs) = Fin 0.
Proof.
  intros Hne H. unfold median. rewrite dropna_fin.
  assert (forall x, In x (sort_by Rleb zs) -> x = 0) as H'.
  { intros x Hx. apply H.
    eapply Permutation_in; [apply Permutation_sym, sort_by_perm | exact Hx]. }
  assert (List.length (sort_by Rleb zs) = List.length zs) as L
    by (symmetry; apply Permutation_length, sort_by_perm).
  destruct (List.length (sort_by Rleb zs)) as [|n] eqn:E.
  - destruct zs; [congruence | discriminate].
  - rewrite !(nth_zeros _ _ H').
    destruct (Nat.even (S n)); f_equal. lra.
Qed.

Lemma std_zeros (zs : list R) :
  (forall x, In x zs -> x = 0) ->
  std (map Fin zs) = NaN \/ std (map Fin zs) = Fin 0.
Proof.
  intros H. unfold std. rewrite dropna_fin.
  destruct (List.length zs <? 2)%nat; [now left|]. right. f_equal.
  rewrite (Rsum_zeros _ H).
  rewrite Rsum_zeros.
  - unfold Rdiv. rewrite Rmult_0_l. apply sqrt_0.
  - intros x Hx. apply in_map_iff in Hx. destruct Hx as [z [E Hz]].
    rewrite (H z Hz) in E. subst x. unfold Rdiv. rewrite Rmult_0_l. lra.
Qed.

Lemma zero_returns_metrics rf (returns : list (Z * float)) :
  (forall d r, In (d, r) returns -> r = Fin 0) ->
  sharpe (compute_metrics rf returns) = None
  /\ (mean_return (compute_metrics rf returns) = None
      \/ mean_return (compute_metrics rf returns) = Some (Fin 0))
  /\ (median_return (compute_metrics rf returns) = None
      \/ median_return (compute_metrics rf returns) = Some (Fin 0))
  /\ (volatility (compute_metrics rf returns) = None
      \/ volatility (compute_metrics rf returns) = Some NaN
      \/ volatility (compute_metrics rf returns) = Some (Fin 0)).
Proof.
  intros H. destruct returns as [|x0 l] eqn:E; [simpl; auto|].
  rewrite <- E in *. assert (returns <> []) as Hne by (rewrite E; discriminate).
  clear E. rewrite compute_metrics_nonempty by auto. simpl.
  set (zs := map (fun _ : Z * float => 0) returns).
  assert (map snd returns = map Fin zs) as V.
  { unfold zs. rewrite map_map. apply map_ext_in. intros [d r] Hin. simpl.
    now apply (H d r). }
  assert (zs <> []) as Zne by (unfold zs; destruct returns; [congruence | discriminate]).
  assert (forall x, In x zs -> x = 0) as Z0.
  { intros z Hz. unfold zs in Hz. apply in_map_iff in Hz.
    destruct Hz as [y [Ey _]]. now symmetry. }
  rewrite V, (mean_zeros Zne Z0), (median_zeros Zne Z0). simpl.
  rewrite !Rmult_0_l.
  destruct (std_zeros _ Z0) as [S|S]; rewrite S; simpl.
  - repeat split; auto.
  - rewrite Rmult_0_l.
    replace (Rltb 0 0) with false by (symmetry; apply Rltb_false; lra).
    repeat split; auto.
Qed.

Lemma json_keys_are_strings (w : dict string float) k :
  In k (map fst (json_keyed w)) -> exists s, k = PyStr s.
Proof.
  unfold json_keyed. rewrite map_map. simpl. intros H. apply in_map_iff in H.
  destruct H as [kv [E _]]. eauto.
Qed.

Lemma backtest_rows_In rf db yps rows r :
  backtest_rows rf db yps = Some rows -> In r rows ->
  exists yp scheme weights, In yp yps /\ r = metric_row rf db yp scheme weights.
Proof.
  revert rows. induction yps as [|yp yps IH]; simpl; intros rows H Hin.
  - inversion H; subst. destruct Hin.
  - destruct (scheme_items (yp_weights yp)) as [items|]; try discriminate.
    destruct (backtest_rows rf db yps) as [rows'|]; try discriminate.
    inversion H; subst rows. clear H. apply in_app_or in Hin.
    destruct Hin as [Hin|Hin].
    + apply in_map_iff in Hin. destruct Hin as [[s w] [E _]].
      exists yp, s, w. split; auto.
    + destruct (IH rows' eq_refl Hin) as [y [s [w [Hy E]]]].
      exists y, s, w. auto.
Qed.

(** X22.  No row written by [PortfolioBacktester.run_backtest] carries a
    Sharpe ratio, and every mean and median return it records is 0: the
    weights read from the JSON column are keyed by strings, which are never
    among the integer column labels of the return frame, so each daily
    portfolio return is 0, the volatility is 0 or [nan], and [vol > 0]
    fails.  The mean, median and volatility are null when the year has no
    return. *)
Theorem backtest_records_no_sharpe rf db start_year end_year rows r :
  run_backtest rf db start_year end_year = Some rows ->
  In r rows ->
  rbm_sharpe r = None
  /\ (rbm_mean_return r = None \/ rbm_mean_return r = Some (Fin 0))
  /\ (rbm_median_return r = None \/ rbm_median_return r = Some (Fin 0))
  /\ (rbm_volatility r = None \/ rbm_volatility r = Some NaN
      \/ rbm_volatility r = Some (Fin 0)).
Proof.
  unfold run_backtest. intros H Hin.
  destruct (backtest_rows_In _ _ _ _ H Hin) as [yp [s [w [_ E]]]]. subst r.
  unfold metric_row. simpl.
  apply zero_returns_metrics. intros d x Hx.
  eapply string_keys_zero_returns; [|exact Hx].
  apply json_keys_are_strings.
Qed.

Lemma backtest_records_no_sharpe_witness :
  exists rows r,
    run_backtest 0.02 weighted_db 2021 2021 = Some rows
    /\ In r rows
    /\ rbm_sharpe r = None.
Proof.
  destruct (run_backtest 0.02 weighted_db 2021 2021) as [rows|] eqn:R.
  - pose proof (@backtest_rows_keys _ _ _ _ R) as K.
    destruct rows as [|r rows]; [discriminate|].
    exists (r :: rows), r.
    assert (In r (r :: rows)) as Hin by (left; reflexivity).
    split; [reflexivity|]. split; [exact Hin|].
    exact (proj1 (@backtest_records_no_sharpe _ _ _ _ _ _ R Hin)).
  - exfalso. unfold run_backtest in R. apply backtest_rows_raises in R.
    destruct R as [yp [Hin [d [E _]]]]. simpl in Hin.
    destruct Hin as [Hy|[]]. subst yp. discriminate.
Defined.

(** ** The dates of the returns *)













(** ** Integer keys *)


